(** * Type strings of the cc65 C compiler (src/cc65/datatype.c)

    A shallow embedding of the type-string module: the auxiliary-data
    codec, length/copy of type strings, the derived-type builders, size
    computation, code generator classification, qualifier predicates,
    indirection and the type printer.

    A [const type*] is modelled by the list of tokens that starts at the
    pointer and runs to the end of the underlying buffer, so that [T + k] is
    [drop k T] and [T[i]] is [T !! i]; an access behind the end of the buffer
    is reported as the fault [OutOfBounds].  Functions that write through a
    pointer return the updated buffer. *)

From stdpp Require Import base option list gmap strings pretty.
From Stdlib Require Import ZArith Lia Ascii.
From Equations Require Import Equations.

Local Open Scope Z_scope.

(** ** Faults and results *)

(** [Internal] and a failing [CHECK] abort the compiler; reading behind a
    buffer or through a handle that names no descriptor has no defined
    behaviour in C and is reported separately. *)
Inductive fault : Type :=
  | OutOfBounds
  | BadHandle
  | CheckFailed
  | Internal (msg : string) (tok : Z).

Inductive res (A : Type) : Type :=
  | Ok (a : A)
  | Err (f : fault).
Arguments Ok {A} a.
Arguments Err {A} f.

#[global] Instance res_ret : MRet res := λ A a, Ok a.
#[global] Instance res_bind : MBind res := λ A B k m,
  match m with
  | Ok a => k a
  | Err f => Err f
  end.
#[global] Instance res_fmap : FMap res := λ A B g m,
  match m with
  | Ok a => Ok (g a)
  | Err f => Err f
  end.

(** [T[i]] *)
Definition rd (T : list Z) (i : nat) : res Z :=
  match T !! i with
  | Some t => Ok t
  | None => Err OutOfBounds
  end.

(** [CHECK (c)] *)
Definition CHECK (c : bool) : res unit :=
  if c then Ok tt else Err CheckFailed.

(** ** The host's integer types *)

(** The widths of [unsigned], of [long]/[unsigned long] and of an object
    pointer of the compiler that builds cc65. *)
Record Abi : Type := {
  UINT_BITS : Z;
  ULONG_BITS : Z;
  PTR_BITS : Z
}.

(** The hosts cc65 was written for: 32 bit [int], [long] and pointers. *)
Definition ILP32 : Abi := {| UINT_BITS := 32; ULONG_BITS := 32; PTR_BITS := 32 |}.

(** 64 bit [long] and pointers, 32 bit [int]. *)
Definition LP64 : Abi := {| UINT_BITS := 32; ULONG_BITS := 64; PTR_BITS := 64 |}.

(** Modelled from the spec: [typedef ... type] lives in datatype.h, which is
    not part of the sources at hand; the spec describes a type string as an
    array of 16-bit tokens. *)
Definition TYPE_BITS : Z := 16.

(** Conversion to an unsigned type of [w] bits. *)
Definition wrap (w : Z) (x : Z) : Z := x mod 2 ^ w.

(** Conversion to a signed type of [w] bits (two's complement). *)
Definition swrap (w : Z) (x : Z) : Z :=
  (x + 2 ^ (w - 1)) mod 2 ^ w - 2 ^ (w - 1).

(** ** The constants of the headers *)

(** datatype.h, codegen.h and funcdesc.h are not part of the sources at hand.
    Their constants are taken as parameters; what the proofs need to know
    about them is stated in [HeaderOk] below. *)
Record Header : Type := {
  (* end of a type string *)
  T_END : Z;
  (* basic types *)
  T_TYPE_CHAR : Z;
  T_TYPE_SHORT : Z;
  T_TYPE_INT : Z;
  T_TYPE_LONG : Z;
  T_TYPE_LONGLONG : Z;
  T_TYPE_FLOAT : Z;
  T_TYPE_DOUBLE : Z;
  T_TYPE_VOID : Z;
  T_TYPE_STRUCT : Z;
  T_TYPE_UNION : Z;
  T_TYPE_ARRAY : Z;
  T_TYPE_PTR : Z;
  T_TYPE_FUNC : Z;
  T_MASK_TYPE : Z;
  (* type classes *)
  T_CLASS_INT : Z;
  T_CLASS_FLOAT : Z;
  T_CLASS_PTR : Z;
  T_CLASS_STRUCT : Z;
  T_MASK_CLASS : Z;
  (* signedness *)
  T_SIGN_UNSIGNED : Z;
  T_SIGN_SIGNED : Z;
  T_MASK_SIGN : Z;
  (* qualifiers *)
  T_QUAL_CONST : Z;
  T_QUAL_VOLATILE : Z;
  T_MASK_QUAL : Z;
  (* complete type tags *)
  T_SCHAR : Z;
  T_UCHAR : Z;
  T_SHORT : Z;
  T_USHORT : Z;
  T_INT : Z;
  T_UINT : Z;
  T_LONG : Z;
  T_ULONG : Z;
  T_LONGLONG : Z;
  T_ULONGLONG : Z;
  T_ENUM : Z;
  T_FLOAT : Z;
  T_DOUBLE : Z;
  T_VOID : Z;
  T_STRUCT : Z;
  T_UNION : Z;
  T_ARRAY : Z;
  T_PTR : Z;
  T_FUNC : Z;
  (* number of tokens of an encoded value *)
  DECODE_SIZE : nat;
  (* sizes on the target *)
  SIZEOF_CHAR : Z;
  SIZEOF_SHORT : Z;
  SIZEOF_INT : Z;
  SIZEOF_LONG : Z;
  SIZEOF_LONGLONG : Z;
  SIZEOF_FLOAT : Z;
  SIZEOF_DOUBLE : Z;
  SIZEOF_PTR : Z;
  (* codegen.h *)
  CF_CHAR : Z;
  CF_INT : Z;
  CF_LONG : Z;
  CF_FLOAT : Z;
  CF_UNSIGNED : Z;
  CF_FIXARGC : Z;
  (* funcdesc.h *)
  FD_VARIADIC : Z
}.

(** ** Symbol table entries and function descriptors *)

(** The fields of [SymEntry] and [FuncDesc] that datatype.c reads. *)
Record SymEntry : Type := { Name : string; Size : Z }.
Record FuncDesc : Type := { Flags : Z }.

(** The descriptors that live at the addresses stored in type strings. *)
Record Store : Type := {
  syms : gmap Z SymEntry;
  funcs : gmap Z FuncDesc
}.

Definition deref {A} (m : gmap Z A) (p : Z) : res A :=
  match m !! p with
  | Some a => Ok a
  | None => Err BadHandle
  end.

(** A diagnostic issued with [Error]; compilation goes on. *)
Definition diag : Type := string.

(** [switch (x) { case l: ... }]: the code of the case whose label is [x],
    [None] for [default].  A C compiler rejects a switch with two equal
    labels, so the order of the cases does not matter for a table that
    comes from a program. *)
Fixpoint switch {A} (x : Z) (cases : list (Z * A)) : option A :=
  match cases with
  | [] => None
  | (l, a) :: cases' => if x =? l then Some a else switch x cases'
  end.

(** [%04X] of a token. *)
Definition hex_digit (d : Z) : string :=
  String.substring (Z.to_nat d) 1 "0123456789ABCDEF".

Definition hex4 (x : Z) : string :=
  hex_digit ((x / 4096) `mod` 16) +:+ hex_digit ((x / 256) `mod` 16)
  +:+ hex_digit ((x / 16) `mod` 16) +:+ hex_digit (x `mod` 16).

Section Datatype.

(** The host, the headers, the setting of [SignedChars] (from global.h) and
    the descriptors of the symbol table. *)
Context (abi : Abi) (h : Header) (SignedChars : bool) (st : Store).

Definition to_type (x : Z) : Z := wrap TYPE_BITS x.
Definition to_unsigned (x : Z) : Z := wrap (UINT_BITS abi) x.
Definition to_ulong (x : Z) : Z := wrap (ULONG_BITS abi) x.
Definition to_long (x : Z) : Z := swrap (ULONG_BITS abi) x.
Definition to_ptr (x : Z) : Z := wrap (PTR_BITS abi) x.

(** *** Helpers of datatype.h *)

(** Modelled from the spec: the macro [UnqualifiedType] of datatype.h, which
    "strips qualifier bits for switch-style dispatch". *)
Definition UnqualifiedType (T : Z) : Z := Z.land T (Z.lnot (T_MASK_QUAL h)).

(** Modelled from the spec: [IsTypeArray] and [IsTypeFunc] of datatype.h,
    "mask/compare" on the base type of the leading tag; [ArrayToPtr] below
    writes the same test out. *)
Definition IsTypeArray (T : list Z) : res bool :=
  t ← rd T 0; Ok (Z.land t (T_MASK_TYPE h) =? T_TYPE_ARRAY h).

Definition IsTypeFunc (T : list Z) : res bool :=
  t ← rd T 0; Ok (Z.land t (T_MASK_TYPE h) =? T_TYPE_FUNC h).

(** *** Length and copy *)

(** [TypeLen]: the number of tokens in front of the first [T_END]. *)
Fixpoint TypeLen (T : list Z) : res nat :=
  match T with
  | [] => Err OutOfBounds
  | t :: T' => if t =? T_END h then Ok 0%nat else S <$> TypeLen T'
  end.

(** [TypeCpy]: copy up to and including the first zero token.  The result is
    the buffer at [Dest] after the copy. *)
Fixpoint TypeCpy (Dest Src : list Z) : res (list Z) :=
  match Src, Dest with
  | T :: Src', _ :: Dest' =>
      if T =? 0 then Ok (T :: Dest') else cons T <$> TypeCpy Dest' Src'
  | _, _ => Err OutOfBounds
  end.

(** [memcpy (Dest, Src, n * sizeof (type))] *)
Definition memcpy (Dest Src : list Z) (n : nat) : res (list Z) :=
  if decide (n ≤ length Dest ∧ n ≤ length Src)%nat
  then Ok (take n Src ++ drop n Dest)
  else Err OutOfBounds.

(** Run [f] on the buffer at [T + k]. *)
Definition at_offset (k : nat) (f : list Z → res (list Z)) (T : list Z)
  : res (list Z) :=
  if decide (k ≤ length T)%nat
  then T' ← f (drop k T); Ok (take k T ++ T')
  else Err OutOfBounds.

(** [TypeCat] *)
Definition TypeCat (Dest Src : list Z) : res (list Z) :=
  n ← TypeLen Dest; at_offset n (λ D, TypeCpy D Src) Dest.

(** [TypeAlloc (Len)]: [Len] fresh tokens; [junk] is what the allocator
    happens to leave in them. *)
Definition TypeAlloc (junk : nat → Z) (Len : nat) : list Z :=
  junk <$> seq 0 Len.

(** [T[i] = v] *)
Definition wr (T : list Z) (i : nat) (v : Z) : res (list Z) :=
  if decide (i < length T)%nat then Ok (<[i:=v]> T) else Err OutOfBounds.

(** [TypeDup] *)
Definition TypeDup (junk : nat → Z) (T : list Z) : res (list Z) :=
  n ← TypeLen T;
  let Len := (n + 1)%nat in
  memcpy (TypeAlloc junk Len) T Len.

(** *** The auxiliary-data codec *)

(** The loop of [Encode], [n] slots to go. *)
Fixpoint Encode_loop (n : nat) (Ty : list Z) (Val : Z) : res (list Z) :=
  match n with
  | O => Ok Ty
  | S n' =>
      match Ty with
      | [] => Err OutOfBounds
      | _ :: Ty' =>
          cons (Z.lor (to_type Val) 0x8000)
            <$> Encode_loop n' Ty' (Z.shiftr Val 15)
      end
  end.

Definition Encode (Ty : list Z) (Val : Z) : res (list Z) :=
  Encode_loop (DECODE_SIZE h) Ty Val.

Definition EncodePtr (Ty : list Z) (P : Z) : res (list Z) :=
  Encode Ty (to_ulong P).

(** The loop of [Decode]; the loop variable [I] of the source is [i], one less
    than the first argument. *)
Fixpoint Decode_loop (n : nat) (Ty : list Z) (Val : Z) : res Z :=
  match n with
  | O => Ok Val
  | S i =>
      t ← rd Ty i;
      Decode_loop i Ty
        (Z.lor (to_ulong (Z.shiftl Val 15)) (Z.land t 0x7FFF))
  end.

Definition Decode (Ty : list Z) : res Z :=
  Decode_loop (DECODE_SIZE h) Ty 0.

Definition DecodePtr (Ty : list Z) : res Z :=
  to_ptr <$> Decode Ty.

(** *** Characters *)

Definition SignExtendChar (C : Z) : Z :=
  if SignedChars && negb (Z.land C 0x80 =? 0)
  then Z.lor C (Z.lnot 0xFF)
  else Z.land C 0xFF.

Definition GetDefaultChar : Z :=
  if SignedChars then T_SCHAR h else T_UCHAR h.

(** *** Builders *)

Definition GetCharArrayType (junk : nat → Z) (Len : Z) : res (list Z) :=
  let T := TypeAlloc junk (1 + DECODE_SIZE h + 2) in
  T ← wr T 0 (T_ARRAY h);
  T ← wr T (DECODE_SIZE h + 1) GetDefaultChar;
  T ← wr T (DECODE_SIZE h + 2) (T_END h);
  at_offset 1 (λ B, Encode B (to_ulong Len)) T.

Definition PointerTo (junk : nat → Z) (T : list Z) : res (list Z) :=
  n ← TypeLen T;
  let Size := (n + 1)%nat in
  let P := TypeAlloc junk (Size + 1) in
  P ← wr P 0 (T_PTR h);
  at_offset 1 (λ B, memcpy B T Size) P.

(** *** Element count of an array *)

Definition GetElementCount (T : list Z) : res Z :=
  a ← IsTypeArray T;
  _ ← CHECK a;
  v ← Decode (drop 1 T);
  Ok (to_long (to_unsigned v)).

Definition GetElementType (T : list Z) : res (list Z) :=
  a ← IsTypeArray T;
  _ ← CHECK a;
  Ok (drop (DECODE_SIZE h + 1) T).

(** *** Sizes *)

(** What a case of the switch in [SizeOf] does. *)
Inductive SizeOf_case : Type :=
  | SzConst (size : Z)
  | SzStruct
  | SzArray.

Definition SizeOf_cases : list (Z * SizeOf_case) :=
  [ (T_VOID h, SzConst 0);
    (T_SCHAR h, SzConst (SIZEOF_CHAR h));
    (T_UCHAR h, SzConst (SIZEOF_CHAR h));
    (T_SHORT h, SzConst (SIZEOF_SHORT h));
    (T_USHORT h, SzConst (SIZEOF_SHORT h));
    (T_INT h, SzConst (SIZEOF_INT h));
    (T_UINT h, SzConst (SIZEOF_INT h));
    (T_PTR h, SzConst (SIZEOF_PTR h));
    (T_FUNC h, SzConst (SIZEOF_PTR h));
    (T_LONG h, SzConst (SIZEOF_LONG h));
    (T_ULONG h, SzConst (SIZEOF_LONG h));
    (T_LONGLONG h, SzConst (SIZEOF_LONGLONG h));
    (T_ULONGLONG h, SzConst (SIZEOF_LONGLONG h));
    (T_ENUM h, SzConst (SIZEOF_INT h));
    (T_FLOAT h, SzConst (SIZEOF_FLOAT h));
    (T_DOUBLE h, SzConst (SIZEOF_DOUBLE h));
    (T_STRUCT h, SzStruct);
    (T_UNION h, SzStruct);
    (T_ARRAY h, SzArray) ].

(** [SizeOf].  The product of the array case is computed in [long] or
    [unsigned] and returned as [unsigned]. *)
Equations? SizeOf (T : list Z) : res Z by wf (length T) lt :=
SizeOf [] := Err OutOfBounds;
SizeOf (t :: T1) :=
  match switch (UnqualifiedType t) SizeOf_cases with
  | Some (SzConst size) => Ok size
  | Some SzStruct =>
      p ← DecodePtr T1;
      Entry ← deref (syms st) p;
      Ok (Size Entry)
  | Some SzArray =>
      ElementCount ← GetElementCount (t :: T1);
      if ElementCount <? 0
      then Ok 0
      else
        s ← SizeOf (drop (DECODE_SIZE h + 1) (t :: T1));
        Ok (to_unsigned (ElementCount * s))
  | None => Err (Internal "Unknown type in SizeOf" t)
  end.
Proof. rewrite length_drop. simpl. lia. Qed.

Definition IsClassPtr (T : list Z) : res bool :=
  t ← rd T 0; Ok (Z.land t (T_MASK_CLASS h) =? T_CLASS_PTR h).

Definition PSizeOf (T : list Z) : res Z :=
  p ← IsClassPtr T;
  _ ← CHECK p;
  a ← IsTypeArray T;
  if a : bool then SizeOf (drop (DECODE_SIZE h + 1) T) else SizeOf (drop 1 T).

Definition CheckedSizeOf (T : list Z) : res (Z * list diag) :=
  Size ← SizeOf T;
  if Size =? 0
  then Ok (SIZEOF_CHAR h, ["Size of data type is unknown"%string])
  else Ok (Size, []).

Definition CheckedPSizeOf (T : list Z) : res (Z * list diag) :=
  Size ← PSizeOf T;
  if Size =? 0
  then Ok (SIZEOF_CHAR h, ["Size of data type is unknown"%string])
  else Ok (Size, []).

(** *** Classification for the code generator *)

(** What a case of the switch in [TypeOf] does. *)
Inductive TypeOf_case : Type :=
  | TfConst (flags : Z)
  | TfFunc.

Definition TypeOf_cases : list (Z * TypeOf_case) :=
  [ (T_SCHAR h, TfConst (CF_CHAR h));
    (T_UCHAR h, TfConst (Z.lor (CF_CHAR h) (CF_UNSIGNED h)));
    (T_SHORT h, TfConst (CF_INT h));
    (T_INT h, TfConst (CF_INT h));
    (T_ENUM h, TfConst (CF_INT h));
    (T_USHORT h, TfConst (Z.lor (CF_INT h) (CF_UNSIGNED h)));
    (T_UINT h, TfConst (Z.lor (CF_INT h) (CF_UNSIGNED h)));
    (T_PTR h, TfConst (Z.lor (CF_INT h) (CF_UNSIGNED h)));
    (T_ARRAY h, TfConst (Z.lor (CF_INT h) (CF_UNSIGNED h)));
    (T_LONG h, TfConst (CF_LONG h));
    (T_ULONG h, TfConst (Z.lor (CF_LONG h) (CF_UNSIGNED h)));
    (T_FLOAT h, TfConst (CF_FLOAT h));
    (T_DOUBLE h, TfConst (CF_FLOAT h));
    (T_FUNC h, TfFunc);
    (T_STRUCT h, TfConst (Z.lor (CF_INT h) (CF_UNSIGNED h)));
    (T_UNION h, TfConst (Z.lor (CF_INT h) (CF_UNSIGNED h))) ].

(** [TypeOf]: the class and the diagnostics issued on the way. *)
Definition TypeOf (T : list Z) : res (Z * list diag) :=
  t ← rd T 0;
  match switch (UnqualifiedType t) TypeOf_cases with
  | Some (TfConst flags) => Ok (flags, [])
  | Some TfFunc =>
      p ← DecodePtr (drop 1 T);
      F ← deref (funcs st) p;
      Ok (if Z.land (Flags F) (FD_VARIADIC h) =? 0 then CF_FIXARGC h else 0, [])
  | None => Ok (CF_INT h, ["Illegal type"%string])
  end.

(** *** Indirection *)

Definition Indirect (T : list Z) : res (list Z) :=
  p ← IsClassPtr T;
  _ ← CHECK p;
  a ← IsTypeArray T;
  Ok (if a : bool then drop (DECODE_SIZE h + 1) T else drop 1 T).

Definition ArrayToPtr (junk : nat → Z) (T : list Z) : res (list Z) :=
  a ← IsTypeArray T;
  _ ← CHECK a;
  PointerTo junk (drop (DECODE_SIZE h + 1) T).

(** *** Predicates *)

Definition IsClassInt (T : list Z) : res bool :=
  t ← rd T 0; Ok (Z.land t (T_MASK_CLASS h) =? T_CLASS_INT h).

Definition IsClassFloat (T : list Z) : res bool :=
  t ← rd T 0; Ok (Z.land t (T_MASK_CLASS h) =? T_CLASS_FLOAT h).

Definition IsClassStruct (T : list Z) : res bool :=
  t ← rd T 0; Ok (Z.land t (T_MASK_CLASS h) =? T_CLASS_STRUCT h).

Definition IsSignUnsigned (T : list Z) : res bool :=
  t ← rd T 0; Ok (Z.land t (T_MASK_SIGN h) =? T_SIGN_UNSIGNED h).

Definition GetQualifier (T : list Z) : res Z :=
  a ← IsTypeArray T;
  let T := if a : bool then drop (DECODE_SIZE h + 1) T else T in
  t ← rd T 0;
  Ok (Z.land t (T_QUAL_CONST h)).

Definition IsQualConst (T : list Z) : res bool :=
  q ← GetQualifier T; Ok (negb (Z.land q (T_QUAL_CONST h) =? 0)).

Definition IsQualVolatile (T : list Z) : res bool :=
  q ← GetQualifier T; Ok (negb (Z.land q (T_QUAL_VOLATILE h) =? 0)).

(** [HasEncode]; [||] evaluates its right operand only when the left one is
    false, which makes no difference here since the three tests read the
    same token. *)
Definition HasEncode (T : list Z) : res bool :=
  s ← IsClassStruct T; a ← IsTypeArray T; f ← IsTypeFunc T;
  Ok (s || a || f).

(** *** Printing *)

(** [PrintTypeComp]: what is printed, and the type with the component
    removed. *)
Definition PrintTypeComp (T Mask : Z) (Name : string) : string * Z :=
  if Z.land T Mask =? Mask
  then (Name +:+ " ", to_type (Z.land T (Z.lnot Mask)))
  else ("", T).

(** What a case of the switch in [PrintType] does: print a word and go on
    with the next token, or one of the cases that skip or recurse. *)
Inductive PrintType_case : Type :=
  | PrWord (w : string)
  | PrStruct (w : string)
  | PrArray
  | PrPtr
  | PrFunc.

Definition PrintType_cases : list (Z * PrintType_case) :=
  [ (T_TYPE_CHAR h, PrWord "char");
    (T_TYPE_SHORT h, PrWord "short");
    (T_TYPE_INT h, PrWord "int");
    (T_TYPE_LONG h, PrWord "long");
    (T_TYPE_LONGLONG h, PrWord "long long");
    (T_TYPE_FLOAT h, PrWord "float");
    (T_TYPE_DOUBLE h, PrWord "double");
    (T_TYPE_VOID h, PrWord "void");
    (T_TYPE_STRUCT h, PrStruct "struct ");
    (T_TYPE_UNION h, PrStruct "union ");
    (T_TYPE_ARRAY h, PrArray);
    (T_TYPE_PTR h, PrPtr);
    (T_TYPE_FUNC h, PrFunc) ].

(** The qualifiers and the sign that [PrintType] prints for a token, and
    what is left of the token. *)
Definition PrintType_prefix (T : Z) : string * Z :=
  let '(o1, T) := PrintTypeComp T (T_QUAL_CONST h) "const" in
  let '(o2, T) := PrintTypeComp T (T_QUAL_VOLATILE h) "volatile" in
  let '(o3, T) :=
    if negb (Z.land T (T_MASK_TYPE h) =? T_TYPE_INT h)
       && negb (Z.land T (T_MASK_TYPE h) =? T_TYPE_LONG h)
    then PrintTypeComp T (T_SIGN_SIGNED h) "signed"
    else (""%string, T) in
  let '(o4, T) := PrintTypeComp T (T_SIGN_UNSIGNED h) "unsigned" in
  (o1 +:+ o2 +:+ o3 +:+ o4, T).

(** [PrintType]: the text written to [F].  [Ty] is the pointer after
    [*Type++]; a case that ends in [break] goes on with the loop. *)
Equations? PrintType (Ty0 : list Z) : res string by wf (length Ty0) lt :=
PrintType [] := Err OutOfBounds;
PrintType (T0 :: Ty) :=
  if T0 =? T_END h then Ok ""%string else
  let pre := (PrintType_prefix T0).1 in
  let T := (PrintType_prefix T0).2 in
  match switch (Z.land T (T_MASK_TYPE h)) PrintType_cases with
  | Some (PrWord w) =>
      rest ← PrintType Ty;
      Ok (pre +:+ w +:+ rest)
  | Some (PrStruct w) =>
      p ← DecodePtr Ty;
      Entry ← deref (syms st) p;
      rest ← PrintType (drop (DECODE_SIZE h) Ty);
      Ok (pre +:+ w +:+ Name Entry +:+ rest)
  | Some PrArray =>
      elem ← PrintType (drop (DECODE_SIZE h) Ty);
      Size ← Decode Ty;
      Ok (pre +:+ elem +:+
          (if Size =? 0 then "[]" else "[" +:+ pretty Size +:+ "]"))
  | Some PrPtr =>
      inner ← PrintType Ty;
      Ok (pre +:+ inner +:+ "*")
  | Some PrFunc =>
      rest ← PrintType (drop (DECODE_SIZE h) Ty);
      Ok (pre +:+ "function returning " +:+ rest)
  | None =>
      rest ← PrintType Ty;
      Ok (pre +:+ "unknown type: " +:+ hex4 T +:+ rest)
  end.
Proof. all: try rewrite length_drop; simpl; lia. Qed.

End Datatype.

(** ** A configuration to run the definitions on *)

(** A header with the token layout of cc65: base type in bits 0-4, class in
    bits 5-7, sign in bits 8-9, size in bits 10-11, qualifiers in bits
    12-13.  The examples run on it; the general statements do not depend on
    its values. *)
Definition cc65 : Header := {|
  T_END := 0x0000;
  T_TYPE_CHAR := 0x0001;
  T_TYPE_SHORT := 0x0002;
  T_TYPE_INT := 0x0003;
  T_TYPE_LONG := 0x0004;
  T_TYPE_LONGLONG := 0x0005;
  T_TYPE_FLOAT := 0x0007;
  T_TYPE_DOUBLE := 0x0008;
  T_TYPE_VOID := 0x0009;
  T_TYPE_STRUCT := 0x000A;
  T_TYPE_UNION := 0x000B;
  T_TYPE_ARRAY := 0x000C;
  T_TYPE_PTR := 0x000D;
  T_TYPE_FUNC := 0x000E;
  T_MASK_TYPE := 0x001F;
  T_CLASS_INT := 0x0020;
  T_CLASS_FLOAT := 0x0040;
  T_CLASS_PTR := 0x0060;
  T_CLASS_STRUCT := 0x0080;
  T_MASK_CLASS := 0x00E0;
  T_SIGN_UNSIGNED := 0x0100;
  T_SIGN_SIGNED := 0x0200;
  T_MASK_SIGN := 0x0300;
  T_QUAL_CONST := 0x1000;
  T_QUAL_VOLATILE := 0x2000;
  T_MASK_QUAL := 0x3000;
  T_SCHAR := 0x0221;
  T_UCHAR := 0x0121;
  T_SHORT := 0x0622;
  T_USHORT := 0x0522;
  T_INT := 0x0223;
  T_UINT := 0x0123;
  T_LONG := 0x0A24;
  T_ULONG := 0x0924;
  T_LONGLONG := 0x0E25;
  T_ULONGLONG := 0x0D25;
  T_ENUM := 0x0226;
  T_FLOAT := 0x0047;
  T_DOUBLE := 0x0048;
  T_VOID := 0x0009;
  T_STRUCT := 0x008A;
  T_UNION := 0x008B;
  T_ARRAY := 0x006C;
  T_PTR := 0x006D;
  T_FUNC := 0x00AE;
  DECODE_SIZE := 5;
  SIZEOF_CHAR := 1;
  SIZEOF_SHORT := 2;
  SIZEOF_INT := 2;
  SIZEOF_LONG := 4;
  SIZEOF_LONGLONG := 8;
  SIZEOF_FLOAT := 4;
  SIZEOF_DOUBLE := 4;
  SIZEOF_PTR := 2;
  CF_CHAR := 0x0003;
  CF_INT := 0x0001;
  CF_LONG := 0x0000;
  CF_FLOAT := 0x0004;
  CF_UNSIGNED := 0x0010;
  CF_FIXARGC := 0x0100;
  FD_VARIADIC := 0x0008
|}.

Definition no_store : Store := {| syms := ∅; funcs := ∅ |}.

(** ** Well-formed type strings *)

(** The tokens that [Encode] writes for a value, in the order of the
    slots. *)
Fixpoint chunks (n : nat) (Val : Z) : list Z :=
  match n with
  | O => []
  | S n' => Z.lor (wrap TYPE_BITS Val) 0x8000 :: chunks n' (Z.shiftr Val 15)
  end.

(** The shape of a type string: a tag, for arrays, functions, structs and
    unions followed by the slots of its payload, then the contained type
    string; the string of a type without contained type ends with the
    sentinel.  [flatten] gives the tokens. *)
Inductive ctype : Type :=
  | CBase (tag : Z)
  | CPtr (tag : Z) (to : ctype)
  | CArray (tag : Z) (count : Z) (elem : ctype)
  | CFunc (tag : Z) (desc : Z) (ret : ctype)
  | CStruct (tag : Z) (sym : Z).

Section Flatten.

Context (h : Header).

Fixpoint flatten (c : ctype) : list Z :=
  match c with
  | CBase t => [t; T_END h]
  | CPtr t c => t :: flatten c
  | CArray t n c => t :: chunks (DECODE_SIZE h) n ++ flatten c
  | CFunc t d c => t :: chunks (DECODE_SIZE h) d ++ flatten c
  | CStruct t s => t :: chunks (DECODE_SIZE h) s ++ [T_END h]
  end.

(** The tags of the types that have neither payload nor contained type. *)
Definition base_tags : list Z :=
  [ T_VOID h; T_SCHAR h; T_UCHAR h; T_SHORT h; T_USHORT h; T_INT h; T_UINT h;
    T_LONG h; T_ULONG h; T_LONGLONG h; T_ULONGLONG h; T_ENUM h; T_FLOAT h;
    T_DOUBLE h ].

Definition is_tag (t tag : Z) : bool := UnqualifiedType h t =? tag.

(** Every tag is, up to qualifiers, the tag of its kind. *)
Fixpoint well_formed (c : ctype) : bool :=
  match c with
  | CBase t => existsb (is_tag t) base_tags
  | CPtr t c => is_tag t (T_PTR h) && well_formed c
  | CArray t n c => is_tag t (T_ARRAY h) && well_formed c
  | CFunc t d c => is_tag t (T_FUNC h) && well_formed c
  | CStruct t s => is_tag t (T_STRUCT h) || is_tag t (T_UNION h)
  end.

End Flatten.

(** What the proofs use of the headers.  The labels of a switch are
    distinct in a program that compiles; the other facts describe the
    layout of a token. *)
Record HeaderOk (h : Header) : Prop := {
  ok_END : T_END h = 0;
  ok_SizeOf_labels : NoDup (SizeOf_cases h).*1;
  ok_TypeOf_labels : NoDup (TypeOf_cases h).*1;
  ok_PrintType_labels : NoDup (PrintType_cases h).*1;
  ok_tags_END : T_END h ∉ (SizeOf_cases h).*1;
  ok_tags_unqual : Forall (λ t, UnqualifiedType h t = t) (SizeOf_cases h).*1;
  ok_PTR_class : Z.land (T_PTR h) (T_MASK_CLASS h) = T_CLASS_PTR h;
  ok_PTR_type : Z.land (T_PTR h) (T_MASK_TYPE h) = T_TYPE_PTR h;
  ok_ARRAY_class : Z.land (T_ARRAY h) (T_MASK_CLASS h) = T_CLASS_PTR h;
  ok_ARRAY_type : Z.land (T_ARRAY h) (T_MASK_TYPE h) = T_TYPE_ARRAY h;
  ok_QUAL_TYPE : Z.land (T_MASK_QUAL h) (T_MASK_TYPE h) = 0;
  ok_QUAL_CLASS : Z.land (T_MASK_QUAL h) (T_MASK_CLASS h) = 0
}.

(** ** Function types, payload copy and the raw printer *)

Section Functions.

Context (abi : Abi) (h : Header) (st : Store).

(** [CopyEncode]: the buffer at [Target] after the copy. *)
Definition CopyEncode (Source Target : list Z) : res (list Z) :=
  memcpy Target Source (DECODE_SIZE h).

(** [GetFuncDesc]: the address of the function descriptor. *)
Definition GetFuncDesc (T : list Z) : res Z :=
  t ← rd T 0;
  let T := if UnqualifiedType h t =? T_PTR h then drop 1 T else T in
  t ← rd T 0;
  _ ← CHECK (t =? T_FUNC h);
  DecodePtr abi h (drop 1 T).

Definition GetFuncReturn (T : list Z) : res (list Z) :=
  t ← rd T 0;
  let T := if UnqualifiedType h t =? T_PTR h then drop 1 T else T in
  t ← rd T 0;
  _ ← CHECK (t =? T_FUNC h);
  Ok (drop (1 + DECODE_SIZE h) T).

(** [FD_FASTCALL] of funcdesc.h is a parameter. *)
Definition IsFastCallFunc (FD_FASTCALL : Z) (T : list Z) : res bool :=
  p ← GetFuncDesc T;
  F ← deref (funcs st) p;
  Ok (negb (Z.land (Flags F) FD_FASTCALL =? 0)).

Definition IsVariadicFunc (T : list Z) : res bool :=
  p ← GetFuncDesc T;
  F ← deref (funcs st) p;
  Ok (negb (Z.land (Flags F) (FD_VARIADIC h) =? 0)).

(** [PrintRawType]: the text written to [F].  A token is an
    [unsigned short], for which [%04X] prints the four digits of [hex4]. *)
Fixpoint PrintRawType (Ty : list Z) : res string :=
  match Ty with
  | [] => Err OutOfBounds
  | t :: Ty' =>
      if t =? T_END h
      then Ok (String (Ascii.ascii_of_nat 10) EmptyString)
      else (λ s, hex4 t +:+ " " +:+ s) <$> PrintRawType Ty'
  end.

(** The handles of the structs and unions of a type name entries of the
    symbol table. *)
Fixpoint handles_ok (c : ctype) : bool :=
  match c with
  | CBase _ => true
  | CPtr _ c | CArray _ _ c | CFunc _ _ c => handles_ok c
  | CStruct _ s =>
      match DecodePtr abi h (chunks (DECODE_SIZE h) s) with
      | Ok p => bool_decide (is_Some (syms st !! p))
      | Err _ => false
      end
  end.

End Functions.

(** Does the type carry a payload behind its leading tag? *)
Definition has_payload (c : ctype) : bool :=
  match c with
  | CBase _ | CPtr _ _ => false
  | CArray _ _ _ | CFunc _ _ _ | CStruct _ _ => true
  end.

(** The contained type of an array or pointer. *)
Definition pointee (c : ctype) : option ctype :=
  match c with
  | CPtr _ c | CArray _ _ c => Some c
  | _ => None
  end.

(** The leading tag of a type, and the tag that carries its logical
    qualifiers: the one of the element type for an array. *)
Definition leading_tag (c : ctype) : Z :=
  match c with
  | CBase t | CPtr t _ | CArray t _ _ | CFunc t _ _ | CStruct t _ => t
  end.

Definition qualifier_tag (c : ctype) : Z :=
  match c with
  | CArray _ _ e => leading_tag e
  | _ => leading_tag c
  end.

(** More of the layout of a token: the base type and the class of the tags
    that [HeaderOk] leaves open, and the bits that [PrintType] strips. *)
Record TagLayout (h : Header) : Prop := {
  lay_FUNC_type : Z.land (T_FUNC h) (T_MASK_TYPE h) = T_TYPE_FUNC h;
  lay_STRUCT_type : Z.land (T_STRUCT h) (T_MASK_TYPE h) = T_TYPE_STRUCT h;
  lay_UNION_type : Z.land (T_UNION h) (T_MASK_TYPE h) = T_TYPE_UNION h;
  lay_base_type :
    Forall (λ t, Z.land t (T_MASK_TYPE h)
                 ∉ [T_TYPE_STRUCT h; T_TYPE_UNION h; T_TYPE_ARRAY h;
                    T_TYPE_PTR h; T_TYPE_FUNC h]) (base_tags h);
  lay_STRUCT_class : Z.land (T_STRUCT h) (T_MASK_CLASS h) = T_CLASS_STRUCT h;
  lay_UNION_class : Z.land (T_UNION h) (T_MASK_CLASS h) = T_CLASS_STRUCT h;
  lay_FUNC_class :
    Z.land (T_FUNC h) (T_MASK_CLASS h) ∉ [T_CLASS_PTR h; T_CLASS_STRUCT h];
  lay_base_class :
    Forall (λ t, Z.land t (T_MASK_CLASS h)
                 ∉ [T_CLASS_PTR h; T_CLASS_STRUCT h]) (base_tags h);
  lay_classes : T_CLASS_PTR h ≠ T_CLASS_STRUCT h;
  lay_MASK_TYPE : 0 ≤ T_MASK_TYPE h < 2 ^ TYPE_BITS;
  lay_strip :
    Forall (λ m, Z.land m (T_MASK_TYPE h) = 0)
      [T_QUAL_CONST h; T_QUAL_VOLATILE h; T_SIGN_SIGNED h; T_SIGN_UNSIGNED h];
  lay_PTR_plain : PrintType_prefix h (T_PTR h) = (EmptyString, T_PTR h)
}.

(** ** Sample type strings *)

(** [int [10]] *)
Definition int10 : list Z :=
  flatten cc65 (CArray (T_ARRAY cc65) 10 (CBase (T_INT cc65))).

(** [int []]: an array whose count reads back as -1; [SizeOf] takes a
    negative count for an unspecified size. *)
Definition int_unspecified : list Z :=
  flatten cc65
    (CArray (T_ARRAY cc65) (to_ulong ILP32 (-1)) (CBase (T_INT cc65))).

(** [void] and [void*] *)
Definition void_type : list Z := flatten cc65 (CBase (T_VOID cc65)).
Definition ptr_to_void : list Z :=
  flatten cc65 (CPtr (T_PTR cc65) (CBase (T_VOID cc65))).

(** [volatile int] *)
Definition volatile_int : list Z :=
  [Z.lor (T_INT cc65) (T_QUAL_VOLATILE cc65); T_END cc65].

(** [const unsigned char*] *)
Definition ptr_to_const_char : list Z :=
  flatten cc65
    (CPtr (T_PTR cc65) (CBase (Z.lor (T_UCHAR cc65) (T_QUAL_CONST cc65)))).

(** A symbol table with one struct of four bytes and one function
    descriptor with the variadic flag, at addresses that fit the slots. *)
Definition sample_store : Store := {|
  syms := {[ 0x1000 := {| Name := "point"; Size := 4 |} ]};
  funcs := {[ 0x2000 := {| Flags := 0x0008 |} ]}
|}.

(** [struct point [3]] and a variadic function returning [int]. *)
Definition points3 : ctype :=
  CArray (T_ARRAY cc65) 3 (CStruct (T_STRUCT cc65) 0x1000).

Definition variadic_int : ctype :=
  CFunc (T_FUNC cc65) 0x2000 (CBase (T_INT cc65)).

(** [x ∈ [a; ...; x; ...]] *)
Ltac in_list :=
  simpl; repeat first [apply list_elem_of_here | apply list_elem_of_further].

(** * Properties *)

Lemma rd_Some (T : list Z) i t : T !! i = Some t → rd T i = Ok t.
Proof. unfold rd. by intros ->. Qed.

(** ** The codec *)

Section Codec.
Context (abi : Abi) (h : Header).

Lemma length_chunks n v : length (chunks n v) = n.
Proof. revert v. induction n as [|n IH]; intros v; simpl; [done|]. by rewrite IH. Qed.

Lemma chunks_lookup n v (i : nat) :
  (i < n)%nat →
  chunks n v !! i = Some (Z.lor (wrap TYPE_BITS (Z.shiftr v (15 * Z.of_nat i))) 0x8000).
Proof.
  revert v i. induction n as [|n IH]; intros v i Hi; [lia|].
  destruct i as [|i]; simpl chunks.
  - by rewrite Z.mul_0_r, Z.shiftr_0_r.
  - simpl. rewrite IH by lia.
    rewrite Z.shiftr_shiftr by lia. do 4 f_equal. lia.
Qed.

Lemma Encode_loop_chunks n Ty v :
  (n ≤ length Ty)%nat → Encode_loop n Ty v = Ok (chunks n v ++ drop n Ty).
Proof.
  revert Ty v. induction n as [|n IH]; intros Ty v Hn; simpl.
  - by rewrite drop_0.
  - destruct Ty as [|t Ty]; simpl in *; [lia|].
    by rewrite IH by lia.
Qed.

Lemma chunk_bit15 x : Z.testbit (Z.lor (wrap TYPE_BITS x) 0x8000) 15 = true.
Proof. rewrite Z.lor_spec. replace (Z.testbit 32768 15) with true by done. apply orb_true_r. Qed.

Lemma chunk_low x :
  Z.land (Z.lor (wrap TYPE_BITS x) 0x8000) 0x7FFF = x `mod` 2 ^ 15.
Proof.
  change 0x7FFF with (Z.ones 15). rewrite Z.land_ones by lia.
  unfold wrap, TYPE_BITS. apply Z.bits_inj'. intros n Hn.
  destruct (decide (n < 15)) as [Hlt|Hge].
  - rewrite !Z.mod_pow2_bits_low, Z.lor_spec, Z.mod_pow2_bits_low by lia.
    change 0x8000 with (2 ^ 15). rewrite Z.pow2_bits_false by lia.
    apply orb_false_r.
  - by rewrite !Z.mod_pow2_bits_high by lia.
Qed.

Lemma Decode_step x :
  0 ≤ x < 2 ^ ULONG_BITS abi →
  Z.lor (to_ulong abi (Z.shiftl (Z.shiftr x 15) 15))
        (Z.land (Z.lor (wrap TYPE_BITS x) 0x8000) 0x7FFF) = x.
Proof.
  intros Hx. rewrite chunk_low.
  assert (0 ≤ Z.shiftl (Z.shiftr x 15) 15 ≤ x) as Hs.
  { rewrite Z.shiftl_mul_pow2, Z.shiftr_div_pow2 by lia.
    pose proof (Z.div_mod x (2 ^ 15)).
    pose proof (Z.mod_pos_bound x (2 ^ 15)). lia. }
  unfold to_ulong, wrap. rewrite Z.mod_small by lia.
  apply Z.bits_inj'. intros n Hn. rewrite Z.lor_spec.
  destruct (decide (n < 15)) as [Hlt|Hge].
  - rewrite Z.shiftl_spec_low, Z.mod_pow2_bits_low by lia. done.
  - rewrite Z.shiftl_spec, Z.shiftr_spec, Z.mod_pow2_bits_high by lia.
    rewrite orb_false_r. f_equal. lia.
Qed.

Lemma Decode_loop_chunks n v rest (k : nat) :
  (k ≤ n)%nat → 0 ≤ v < 2 ^ ULONG_BITS abi →
  Decode_loop abi k (chunks n v ++ rest) (Z.shiftr v (15 * Z.of_nat k)) = Ok v.
Proof.
  intros Hk Hv. induction k as [|k IH]; simpl Decode_loop.
  - by rewrite Z.mul_0_r, Z.shiftr_0_r.
  - rewrite (rd_Some _ _ (Z.lor (wrap TYPE_BITS (Z.shiftr v (15 * Z.of_nat k))) 0x8000)).
    2:{ rewrite lookup_app_l by (rewrite length_chunks; lia).
        apply chunks_lookup. lia. }
    simpl. replace (15 * Z.of_nat (S k)) with (15 * Z.of_nat k + 15) by lia.
    rewrite <- Z.shiftr_shiftr by lia. rewrite Decode_step; [apply IH; lia|].
    rewrite Z.shiftr_div_pow2 by lia. split.
    + apply Z.div_pos; lia.
    + apply Z.le_lt_trans with v; [|lia].
      apply Z.div_le_upper_bound; [lia|].
      assert (1 ≤ 2 ^ (15 * Z.of_nat k)) by (apply Z.pow_le_mono_r with (b:=0) (a:=2); lia). nia.
Qed.

Lemma Decode_chunks v rest :
  0 ≤ v < 2 ^ ULONG_BITS abi → v < 2 ^ (15 * Z.of_nat (DECODE_SIZE h)) →
  Decode abi h (chunks (DECODE_SIZE h) v ++ rest) = Ok v.
Proof.
  intros Hv Hn. unfold Decode.
  rewrite <- (Decode_loop_chunks (DECODE_SIZE h) v rest (DECODE_SIZE h)) by lia.
  f_equal. symmetry. apply Z.shiftr_eq_0_iff.
  destruct (decide (v = 0)) as [->|Hnz]; [left; done|right]. split; [lia|].
  apply Z.log2_lt_pow2; lia.
Qed.
End Codec.

(** C1: for every value in [0, 2^31), [Decode] returns the value that
    [Encode] stored in the slots, and [DecodePtr] returns the address that
    [EncodePtr] stored, when the slots and [unsigned long] are wide enough
    for the value and for an address. *)
Theorem Decode_Encode_round_trip (abi : Abi) (h : Header) (Ty : list Z) (v P : Z) :
  (DECODE_SIZE h ≤ length Ty)%nat →
  31 ≤ 15 * Z.of_nat (DECODE_SIZE h) →
  31 ≤ ULONG_BITS abi →
  0 ≤ PTR_BITS abi ≤ ULONG_BITS abi →
  PTR_BITS abi ≤ 15 * Z.of_nat (DECODE_SIZE h) →
  0 ≤ v < 2 ^ 31 →
  0 ≤ P < 2 ^ PTR_BITS abi →
  (∃ Ty', Encode h Ty v = Ok Ty' ∧ Decode abi h Ty' = Ok v) ∧
  (∃ Ty', EncodePtr abi h Ty P = Ok Ty' ∧ DecodePtr abi h Ty' = Ok P).
Proof.
  intros Hlen Hn Hw Hp Hpn Hv HP.
  assert (2 ^ 31 ≤ 2 ^ ULONG_BITS abi) by (apply Z.pow_le_mono_r; lia).
  assert (2 ^ 31 ≤ 2 ^ (15 * Z.of_nat (DECODE_SIZE h)))
    by (apply Z.pow_le_mono_r; lia).
  assert (2 ^ PTR_BITS abi ≤ 2 ^ ULONG_BITS abi)
    by (apply Z.pow_le_mono_r; lia).
  assert (2 ^ PTR_BITS abi ≤ 2 ^ (15 * Z.of_nat (DECODE_SIZE h)))
    by (apply Z.pow_le_mono_r; lia).
  split.
  - exists (chunks (DECODE_SIZE h) v ++ drop (DECODE_SIZE h) Ty). split.
    + by apply Encode_loop_chunks.
    + apply Decode_chunks; lia.
  - exists (chunks (DECODE_SIZE h) P ++ drop (DECODE_SIZE h) Ty).
    unfold EncodePtr, DecodePtr, to_ulong, to_ptr, wrap.
    rewrite (Z.mod_small P) by lia. split.
    + by apply Encode_loop_chunks.
    + rewrite Decode_chunks by lia. simpl. f_equal. apply Z.mod_small. lia.
Qed.

Lemma Decode_Encode_round_trip_witness :
  (∃ Ty', Encode cc65 (replicate 5 0) 123456789 = Ok Ty'
          ∧ Decode ILP32 cc65 Ty' = Ok 123456789) ∧
  (∃ Ty', EncodePtr ILP32 cc65 (replicate 5 0) 0xDEADBEEF = Ok Ty'
          ∧ DecodePtr ILP32 cc65 Ty' = Ok 0xDEADBEEF).
Proof.
  apply (Decode_Encode_round_trip ILP32 cc65 (replicate 5 0) 123456789 0xDEADBEEF);
    simpl; lia.
Defined.

(** ** Dispatch *)

Lemma switch_None {A} x (cases : list (Z * A)) :
  x ∉ cases.*1 → switch x cases = None.
Proof.
  induction cases as [|[l a] cases IH]; simpl; [done|].
  rewrite not_elem_of_cons. intros [Hne Hnin].
  destruct (Z.eqb_spec x l); [done|]. by apply IH.
Qed.

Lemma switch_In {A} x (a : A) cases :
  NoDup cases.*1 → (x, a) ∈ cases → switch x cases = Some a.
Proof.
  induction cases as [|[l b] cases IH]; simpl.
  - intros _ Hin. by apply elem_of_nil in Hin.
  - rewrite NoDup_cons. intros [Hl Hnd] Hin.
    apply elem_of_cons in Hin as [Heq|Hin].
    + injection Heq as -> ->. by rewrite Z.eqb_refl.
    + destruct (Z.eqb_spec x l) as [->|Hne]; [|by apply IH].
      exfalso. apply Hl. apply list_elem_of_fmap. by exists (l, a).
Qed.

Lemma switch_None_inv {A} x (cases : list (Z * A)) :
  switch x cases = None → x ∉ cases.*1.
Proof.
  induction cases as [|[l a] cases IH]; simpl.
  - intros _ Hx. by apply elem_of_nil in Hx.
  - destruct (Z.eqb_spec x l) as [->|Hne]; [done|].
    intros Hs [->|Hx]%elem_of_cons; [done|]. by apply IH.
Qed.

(** ** Length and copy *)

Section Strings.
Context (h : Header).

Lemma TypeLen_app pre T :
  Forall (λ t, t ≠ T_END h) pre →
  TypeLen h (pre ++ T) = (λ n, (length pre + n)%nat) <$> TypeLen h T.
Proof.
  induction 1 as [|t pre Ht Hpre IH]; simpl.
  - by destruct (TypeLen h T).
  - destruct (Z.eqb_spec t (T_END h)); [done|].
    rewrite IH. by destruct (TypeLen h T).
Qed.

Lemma TypeLen_END T : TypeLen h (T_END h :: T) = Ok 0%nat.
Proof. simpl. by rewrite Z.eqb_refl. Qed.

Lemma TypeLen_Ok T n :
  TypeLen h T = Ok n →
  (n < length T)%nat ∧ T !! n = Some (T_END h)
  ∧ Forall (λ t, t ≠ T_END h) (take n T).
Proof.
  revert n. induction T as [|t T IH]; intros n; simpl; [done|].
  destruct (Z.eqb_spec t (T_END h)) as [->|Hne].
  - intros [= <-]. simpl. split; [lia|]. split; [done|]. constructor.
  - destruct (TypeLen h T) as [m|] eqn:Hm; simpl; [|done].
    intros [= <-]. destruct (IH m eq_refl) as (? & ? & ?).
    simpl. split; [lia|]. split; [done|]. by constructor.
Qed.

Lemma TypeCpy_app pre Src Dest :
  Forall (λ t, t ≠ 0) pre → (length pre < length Dest)%nat →
  TypeCpy Dest (pre ++ 0 :: Src) = Ok (pre ++ 0 :: drop (S (length pre)) Dest).
Proof.
  intros Hpre. revert Dest.
  induction Hpre as [|t pre Ht Hpre IH]; intros Dest Hlen; simpl.
  - destruct Dest as [|d Dest]; simpl in *; [lia|]. by rewrite drop_0.
  - destruct Dest as [|d Dest]; simpl in *; [lia|].
    destruct (Z.eqb_spec t 0); [done|]. by rewrite IH by lia.
Qed.

End Strings.

(** ** Well-formed type strings end at their sentinel *)

Section WellFormed.
Context (h : Header) (Hh : HeaderOk h).

Lemma chunk_ne_END x : Z.lor (wrap TYPE_BITS x) 0x8000 ≠ T_END h.
Proof.
  rewrite (ok_END h Hh). intros Hz.
  pose proof (chunk_bit15 x) as Hb. rewrite Hz in Hb. done.
Qed.

Lemma chunks_ne_END n v : Forall (λ t, t ≠ T_END h) (chunks n v).
Proof.
  revert v. induction n as [|n IH]; intros v; simpl; constructor;
    [apply chunk_ne_END | apply IH].
Qed.

Lemma is_tag_ne_END t tag :
  tag ∈ (SizeOf_cases h).*1 → is_tag h t tag = true → t ≠ T_END h.
Proof.
  unfold is_tag. intros Hin Ht%Z.eqb_eq ->.
  apply (ok_tags_END h Hh). rewrite <- Ht in Hin.
  unfold UnqualifiedType in Hin. rewrite (ok_END h Hh) in *.
  by rewrite Z.land_0_l in Hin.
Qed.

Lemma base_tags_labels tag : tag ∈ base_tags h → tag ∈ (SizeOf_cases h).*1.
Proof.
  unfold base_tags. intros Hin.
  repeat (apply elem_of_cons in Hin as [->|Hin]); [in_list..|].
  by apply elem_of_nil in Hin.
Qed.

Lemma flatten_split c :
  well_formed h c = true →
  ∃ pre, flatten h c = pre ++ [T_END h] ∧ Forall (λ t, t ≠ T_END h) pre.
Proof.
  induction c as [t|t c IH|t n c IH|t d c IH|t s]; cbn [well_formed flatten].
  - intros (tag & Hin & Ht)%existsb_exists. exists [t]. split; [done|].
    constructor; [|done]. apply (is_tag_ne_END t tag); [|done].
    apply base_tags_labels. by apply list_elem_of_In.
  - intros [Ht Hc]%andb_prop. destruct (IH Hc) as (pre & -> & Hpre).
    exists (t :: pre). split; [done|]. constructor; [|done].
    apply (is_tag_ne_END t (T_PTR h)); [in_list|done].
  - intros [Ht Hc]%andb_prop. destruct (IH Hc) as (pre & -> & Hpre).
    exists (t :: chunks (DECODE_SIZE h) n ++ pre). split.
    { simpl. by rewrite <- app_assoc. }
    constructor.
    + apply (is_tag_ne_END t (T_ARRAY h)); [in_list|done].
    + apply Forall_app. split; [apply chunks_ne_END|done].
  - intros [Ht Hc]%andb_prop. destruct (IH Hc) as (pre & -> & Hpre).
    exists (t :: chunks (DECODE_SIZE h) d ++ pre). split.
    { simpl. by rewrite <- app_assoc. }
    constructor.
    + apply (is_tag_ne_END t (T_FUNC h)); [in_list|done].
    + apply Forall_app. split; [apply chunks_ne_END|done].
  - intros Ht. exists (t :: chunks (DECODE_SIZE h) s). split; [done|].
    constructor; [|apply chunks_ne_END].
    apply orb_prop in Ht as [Ht|Ht].
    + apply (is_tag_ne_END t (T_STRUCT h)); [in_list|done].
    + apply (is_tag_ne_END t (T_UNION h)); [in_list|done].
Qed.

Lemma TypeLen_flatten c :
  well_formed h c = true →
  TypeLen h (flatten h c) = Ok (length (flatten h c) - 1)%nat.
Proof.
  intros (pre & -> & Hpre)%flatten_split.
  rewrite TypeLen_app, TypeLen_END by done. simpl.
  rewrite length_app. f_equal. cbn [length]. lia.
Qed.

Lemma TypeCpy_flatten c Dest :
  well_formed h c = true → (length (flatten h c) ≤ length Dest)%nat →
  TypeCpy Dest (flatten h c) = Ok (flatten h c ++ drop (length (flatten h c)) Dest).
Proof.
  intros (pre & -> & Hpre)%flatten_split. rewrite length_app. simpl.
  rewrite (ok_END h Hh) in *. intros Hlen.
  rewrite TypeCpy_app by (done || lia).
  rewrite <- app_assoc. simpl. by rewrite Nat.add_1_r.
Qed.

End WellFormed.

(** ** Pointers *)

Section Pointer.
Context (h : Header) (Hh : HeaderOk h).

Lemma length_TypeAlloc junk n : length (TypeAlloc junk n) = n.
Proof. unfold TypeAlloc. by rewrite length_fmap, length_seq. Qed.

Lemma PointerTo_Ok junk T n :
  TypeLen h T = Ok n →
  PointerTo h junk T = Ok (T_PTR h :: take (S n) T).
Proof.
  intros Hn. destruct (TypeLen_Ok h T n Hn) as (Hlt & _ & _).
  unfold PointerTo. rewrite Hn. cbn [mbind res_bind].
  pose proof (length_TypeAlloc junk (n + 1 + 1)) as HP.
  destruct (TypeAlloc junk (n + 1 + 1)) as [|x P]; simpl in HP; [lia|].
  unfold wr, at_offset, memcpy. cbn [length].
  rewrite decide_True by lia. cbn [mbind res_bind].
  rewrite length_insert. cbn [length insert list_insert drop take].
  rewrite decide_True by lia. rewrite drop_0.
  rewrite decide_True by lia. cbn [mbind res_bind].
  rewrite drop_ge by lia. rewrite app_nil_r, take_0.
  by replace (n + 1)%nat with (S n) by lia.
Qed.

Lemma TYPE_PTR_ne_ARRAY : T_TYPE_PTR h ≠ T_TYPE_ARRAY h.
Proof.
  pose proof (ok_PrintType_labels h Hh) as Hnd. simpl in Hnd.
  intros Heq. rewrite Heq in Hnd.
  repeat (apply NoDup_cons in Hnd as [? Hnd]). set_solver.
Qed.

Lemma Indirect_PTR T : Indirect h (T_PTR h :: T) = Ok T.
Proof.
  unfold Indirect, IsClassPtr, IsTypeArray. simpl.
  rewrite (ok_PTR_class h Hh), Z.eqb_refl. simpl.
  rewrite (ok_PTR_type h Hh).
  destruct (Z.eqb_spec (T_TYPE_PTR h) (T_TYPE_ARRAY h)) as [He|]; [|done].
  by apply TYPE_PTR_ne_ARRAY in He.
Qed.

Lemma tag_unqual tag :
  tag ∈ (SizeOf_cases h).*1 → UnqualifiedType h tag = tag.
Proof.
  intros Hin. pose proof (ok_tags_unqual h Hh) as Hall.
  rewrite Forall_forall in Hall. by apply Hall.
Qed.

Lemma SizeOf_const abi st t T size :
  (UnqualifiedType h t, SzConst size) ∈ SizeOf_cases h →
  SizeOf abi h st (t :: T) = Ok size.
Proof.
  intros Hin. simp SizeOf.
  by rewrite (switch_In _ _ _ (ok_SizeOf_labels h Hh) Hin).
Qed.

Lemma SizeOf_PTR abi st T : SizeOf abi h st (T_PTR h :: T) = Ok (SIZEOF_PTR h).
Proof.
  apply SizeOf_const. rewrite tag_unqual; in_list.
Qed.

End Pointer.

(** ** Arrays *)

Section Arrays.
Context (abi : Abi) (h : Header) (Hh : HeaderOk h).

Lemma land_lnot_disjoint q m : Z.land q m = 0 → Z.land (Z.lnot q) m = m.
Proof.
  intros Hqm. apply Z.bits_inj'. intros i Hi.
  rewrite Z.land_spec, Z.lnot_spec by done.
  pose proof (f_equal (λ x, Z.testbit x i) Hqm) as Hb. simpl in Hb.
  rewrite Z.land_spec, Z.bits_0 in Hb.
  destruct (Z.testbit q i), (Z.testbit m i); done.
Qed.

Lemma array_tag_type t :
  UnqualifiedType h t = T_ARRAY h →
  Z.land t (T_MASK_TYPE h) = T_TYPE_ARRAY h.
Proof.
  intros Ht. rewrite <- (ok_ARRAY_type h Hh), <- Ht. unfold UnqualifiedType.
  by rewrite <- Z.land_assoc, (land_lnot_disjoint _ _ (ok_QUAL_TYPE h Hh)).
Qed.

Lemma array_tag_class t :
  UnqualifiedType h t = T_ARRAY h →
  Z.land t (T_MASK_CLASS h) = T_CLASS_PTR h.
Proof.
  intros Ht. rewrite <- (ok_ARRAY_class h Hh), <- Ht. unfold UnqualifiedType.
  by rewrite <- Z.land_assoc, (land_lnot_disjoint _ _ (ok_QUAL_CLASS h Hh)).
Qed.

Lemma IsTypeArray_array t T :
  UnqualifiedType h t = T_ARRAY h → IsTypeArray h (t :: T) = Ok true.
Proof.
  intros Ht. unfold IsTypeArray. cbn [rd lookup list_lookup mbind res_bind].
  by rewrite (array_tag_type t Ht), Z.eqb_refl.
Qed.

(** The count of a well-formed array reads back as the stored value,
    converted as [GetElementCount] converts it. *)
Lemma GetElementCount_flatten t cnt elem :
  UnqualifiedType h t = T_ARRAY h →
  0 ≤ cnt < 2 ^ ULONG_BITS abi →
  cnt < 2 ^ (15 * Z.of_nat (DECODE_SIZE h)) →
  GetElementCount abi h (flatten h (CArray t cnt elem))
  = Ok (to_long abi (to_unsigned abi cnt)).
Proof.
  intros Ht Hcnt Hfit. unfold GetElementCount. cbn [flatten].
  rewrite (IsTypeArray_array t _ Ht). cbn [mbind res_bind CHECK drop].
  rewrite drop_0. by rewrite Decode_chunks.
Qed.

(** [Indirect] on an array skips the tag and the slots of the count. *)
Lemma Indirect_array t cnt elem :
  UnqualifiedType h t = T_ARRAY h →
  Indirect h (flatten h (CArray t cnt elem)) = Ok (flatten h elem).
Proof.
  intros Ht. unfold Indirect, IsClassPtr. cbn [flatten].
  cbn [rd lookup list_lookup mbind res_bind].
  rewrite (array_tag_class t Ht), Z.eqb_refl. cbn [mbind res_bind CHECK].
  rewrite (IsTypeArray_array t _ Ht). cbn [mbind res_bind].
  rewrite Nat.add_1_r. cbn [drop]. f_equal.
  rewrite <- (length_chunks (DECODE_SIZE h) cnt) at 1.
  by rewrite drop_app_length.
Qed.

End Arrays.

(** ** The sample configuration *)

Lemma cc65_ok : HeaderOk cc65.
Proof.
  split; try reflexivity;
    match goal with |- ?P => apply (@bool_decide_unpack P _) end;
    vm_compute; exact I.
Qed.

(** ** Pointer types *)

Section PointerTo.
Context (h : Header) (Hh : HeaderOk h).

Lemma length_flatten c :
  well_formed h c = true → (1 ≤ length (flatten h c))%nat.
Proof.
  intros (pre & -> & _)%flatten_split; [|done].
  rewrite length_app. simpl. lia.
Qed.

Lemma PointerTo_flatten junk c :
  well_formed h c = true →
  PointerTo h junk (flatten h c) = Ok (T_PTR h :: flatten h c).
Proof.
  intros Hc. pose proof (length_flatten c Hc).
  rewrite (PointerTo_Ok h junk _ _ (TypeLen_flatten h Hh c Hc)).
  by rewrite take_ge by lia.
Qed.

Lemma T_PTR_ne_END : T_PTR h ≠ T_END h.
Proof.
  intros Heq. apply (ok_tags_END h Hh). rewrite <- Heq. in_list.
Qed.

End PointerTo.

(** C3: for every well-formed type string [T], [Indirect (PointerTo (T))]
    is [T], token for token up to and including the sentinel. *)
Theorem Indirect_PointerTo (h : Header) (junk : nat → Z) (c : ctype) :
  HeaderOk h →
  well_formed h c = true →
  ∃ P, PointerTo h junk (flatten h c) = Ok P
       ∧ Indirect h P = Ok (flatten h c).
Proof.
  intros Hh Hc. exists (T_PTR h :: flatten h c). split.
  - by apply PointerTo_flatten.
  - by apply Indirect_PTR.
Qed.

Lemma Indirect_PointerTo_witness :
  well_formed cc65 (CArray (T_ARRAY cc65) 10 (CBase (T_INT cc65))) = true ∧
  ∃ P, PointerTo cc65 (λ _, 0x5A5A)
         (flatten cc65 (CArray (T_ARRAY cc65) 10 (CBase (T_INT cc65)))) = Ok P
       ∧ Indirect cc65 P
         = Ok (flatten cc65 (CArray (T_ARRAY cc65) 10 (CBase (T_INT cc65)))).
Proof.
  split; [reflexivity|].
  apply (Indirect_PointerTo cc65 (λ _, 0x5A5A)
           (CArray (T_ARRAY cc65) 10 (CBase (T_INT cc65))) cc65_ok).
  reflexivity.
Defined.

(** C4: for every well-formed type string [T], [PointerTo (T)] is one token
    longer than [T], and its size is [SIZEOF_PTR] whatever [T] is. *)
Theorem PointerTo_TypeLen_SizeOf (abi : Abi) (h : Header) (st : Store)
    (junk : nat → Z) (c : ctype) :
  HeaderOk h →
  well_formed h c = true →
  ∃ P n, PointerTo h junk (flatten h c) = Ok P
         ∧ TypeLen h (flatten h c) = Ok n
         ∧ TypeLen h P = Ok (n + 1)%nat
         ∧ SizeOf abi h st P = Ok (SIZEOF_PTR h).
Proof.
  intros Hh Hc.
  exists (T_PTR h :: flatten h c), (length (flatten h c) - 1)%nat.
  split; [by apply PointerTo_flatten|].
  split; [by apply TypeLen_flatten|].
  split; [|by apply SizeOf_PTR].
  cbn [TypeLen]. destruct (Z.eqb_spec (T_PTR h) (T_END h)) as [He|_].
  - by apply T_PTR_ne_END in He.
  - rewrite (TypeLen_flatten h Hh c Hc). simpl. f_equal. lia.
Qed.

Lemma PointerTo_TypeLen_SizeOf_witness :
  well_formed cc65 (CPtr (T_PTR cc65) (CBase (T_UCHAR cc65))) = true ∧
  ∃ P n, PointerTo cc65 (λ _, 0x5A5A)
           (flatten cc65 (CPtr (T_PTR cc65) (CBase (T_UCHAR cc65)))) = Ok P
         ∧ TypeLen cc65 (flatten cc65 (CPtr (T_PTR cc65) (CBase (T_UCHAR cc65))))
           = Ok n
         ∧ TypeLen cc65 P = Ok (n + 1)%nat
         ∧ SizeOf ILP32 cc65 no_store P = Ok (SIZEOF_PTR cc65).
Proof.
  split; [reflexivity|].
  apply (PointerTo_TypeLen_SizeOf ILP32 cc65 no_store (λ _, 0x5A5A)
           (CPtr (T_PTR cc65) (CBase (T_UCHAR cc65))) cc65_ok).
  reflexivity.
Defined.

(** C10: every token that [Encode] writes has bit 0x8000 set and differs from
    the sentinel; hence for a well-formed type string, payloads included,
    [TypeLen] counts every token in front of the final sentinel, and
    [TypeCpy] copies the whole string with its payloads and the sentinel. *)
Theorem payload_never_sentinel (h : Header) (c : ctype) (Dest Ty : list Z)
    (v : Z) :
  HeaderOk h →
  well_formed h c = true →
  (length (flatten h c) ≤ length Dest)%nat →
  (DECODE_SIZE h ≤ length Ty)%nat →
  (∃ Ty', Encode h Ty v = Ok Ty'
          ∧ Forall (λ t, Z.testbit t 15 = true ∧ t ≠ T_END h)
              (take (DECODE_SIZE h) Ty')) ∧
  TypeLen h (flatten h c) = Ok (length (flatten h c) - 1)%nat ∧
  TypeCpy Dest (flatten h c)
  = Ok (flatten h c ++ drop (length (flatten h c)) Dest).
Proof.
  intros Hh Hc HDest HTy. split; [|split].
  - exists (chunks (DECODE_SIZE h) v ++ drop (DECODE_SIZE h) Ty). split.
    + by apply Encode_loop_chunks.
    + rewrite take_app_length' by (symmetry; apply length_chunks).
      generalize (DECODE_SIZE h). intros n. revert v.
      induction n as [|n IH]; intros v; simpl; constructor; [|apply IH].
      split; [apply chunk_bit15 | by apply chunk_ne_END].
  - by apply TypeLen_flatten.
  - by apply TypeCpy_flatten.
Qed.

Lemma payload_never_sentinel_witness :
  well_formed cc65 (CArray (T_ARRAY cc65) 10 (CBase (T_INT cc65))) = true ∧
  (∃ Ty', Encode cc65 (replicate 5 0) 1234 = Ok Ty'
          ∧ Forall (λ t, Z.testbit t 15 = true ∧ t ≠ T_END cc65) (take 5 Ty')) ∧
  TypeLen cc65 (flatten cc65 (CArray (T_ARRAY cc65) 10 (CBase (T_INT cc65))))
  = Ok 7%nat ∧
  TypeCpy (replicate 10 0x5A5A)
    (flatten cc65 (CArray (T_ARRAY cc65) 10 (CBase (T_INT cc65))))
  = Ok (flatten cc65 (CArray (T_ARRAY cc65) 10 (CBase (T_INT cc65)))
        ++ [0x5A5A; 0x5A5A]).
Proof.
  split; [reflexivity|].
  apply (payload_never_sentinel cc65
           (CArray (T_ARRAY cc65) 10 (CBase (T_INT cc65)))
           (replicate 10 0x5A5A) (replicate 5 0) 1234 cc65_ok);
    [reflexivity | simpl; lia | simpl; lia].
Defined.

(** ** Sizes *)

Section Sizes.
Context (abi : Abi) (h : Header) (st : Store) (Hh : HeaderOk h).

Lemma SizeOf_array t T1 :
  UnqualifiedType h t = T_ARRAY h →
  SizeOf abi h st (t :: T1) =
    (ElementCount ← GetElementCount abi h (t :: T1);
     if ElementCount <? 0 then Ok 0
     else s ← SizeOf abi h st (drop (DECODE_SIZE h + 1) (t :: T1));
          Ok (to_unsigned abi (ElementCount * s))).
Proof.
  intros Ht. simp SizeOf. rewrite Ht.
  rewrite (switch_In _ SzArray _ (ok_SizeOf_labels h Hh)) by in_list.
  done.
Qed.

Lemma CheckedSizeOf_zero T :
  SizeOf abi h st T = Ok 0 →
  CheckedSizeOf abi h st T
  = Ok (SIZEOF_CHAR h, ["Size of data type is unknown"%string]).
Proof. unfold CheckedSizeOf. by intros ->. Qed.

Lemma CheckedSizeOf_nonzero T s :
  SizeOf abi h st T = Ok s → s ≠ 0 → CheckedSizeOf abi h st T = Ok (s, []).
Proof.
  unfold CheckedSizeOf. intros -> Hs. simpl.
  by destruct (Z.eqb_spec s 0).
Qed.

Lemma CheckedPSizeOf_zero T :
  PSizeOf abi h st T = Ok 0 →
  CheckedPSizeOf abi h st T
  = Ok (SIZEOF_CHAR h, ["Size of data type is unknown"%string]).
Proof. unfold CheckedPSizeOf. by intros ->. Qed.

Lemma CheckedPSizeOf_nonzero T s :
  PSizeOf abi h st T = Ok s → s ≠ 0 → CheckedPSizeOf abi h st T = Ok (s, []).
Proof.
  unfold CheckedPSizeOf. intros -> Hs. simpl.
  by destruct (Z.eqb_spec s 0).
Qed.

End Sizes.




(** C6: [CheckedSizeOf] returns a non-zero [SizeOf] unchanged and without a
    diagnostic; for a zero [SizeOf] it issues "Size of data type is unknown"
    and returns the size of a char, one byte, so it never returns zero;
    [CheckedPSizeOf] does the same over [PSizeOf], which accepts types of
    pointer class only. *)
Theorem CheckedSizeOf_never_zero (abi : Abi) (h : Header) (st : Store)
    (T : list Z) :
  SIZEOF_CHAR h = 1 →
  ((∀ s, SizeOf abi h st T = Ok s → s ≠ 0 →
      CheckedSizeOf abi h st T = Ok (s, [])) ∧
   (SizeOf abi h st T = Ok 0 →
      CheckedSizeOf abi h st T
      = Ok (1, ["Size of data type is unknown"%string])) ∧
   (∀ s d, CheckedSizeOf abi h st T = Ok (s, d) → s ≠ 0)) ∧
  ((∀ s, PSizeOf abi h st T = Ok s → s ≠ 0 →
      CheckedPSizeOf abi h st T = Ok (s, [])) ∧
   (PSizeOf abi h st T = Ok 0 →
      CheckedPSizeOf abi h st T
      = Ok (1, ["Size of data type is unknown"%string])) ∧
   (∀ s d, CheckedPSizeOf abi h st T = Ok (s, d) → s ≠ 0) ∧
   (IsClassPtr h T = Ok false → CheckedPSizeOf abi h st T = Err CheckFailed)).
Proof.
  intros Hchar. split.
  - split; [|split].
    + intros s Hs Hnz. by apply CheckedSizeOf_nonzero.
    + intros Hs. rewrite <- Hchar. by apply CheckedSizeOf_zero.
    + unfold CheckedSizeOf. intros s d.
      destruct (SizeOf abi h st T) as [s'|]; [|done]. cbn [mbind res_bind].
      destruct (Z.eqb_spec s' 0); intros [= <- <-]; lia.
  - split; [|split; [|split]].
    + intros s Hs Hnz. by apply CheckedPSizeOf_nonzero.
    + intros Hs. rewrite <- Hchar. by apply CheckedPSizeOf_zero.
    + unfold CheckedPSizeOf. intros s d.
      destruct (PSizeOf abi h st T) as [s'|]; [|done]. cbn [mbind res_bind].
      destruct (Z.eqb_spec s' 0); intros [= <- <-]; lia.
    + unfold CheckedPSizeOf, PSizeOf. by intros ->.
Qed.

Lemma CheckedSizeOf_never_zero_witness :
  SizeOf ILP32 cc65 no_store void_type = Ok 0 ∧
  CheckedSizeOf ILP32 cc65 no_store void_type
  = Ok (1, ["Size of data type is unknown"%string]) ∧
  CheckedPSizeOf ILP32 cc65 no_store ptr_to_void
  = Ok (1, ["Size of data type is unknown"%string]) ∧
  CheckedSizeOf ILP32 cc65 no_store ptr_to_void = Ok (2, []).
Proof.
  destruct (CheckedSizeOf_never_zero ILP32 cc65 no_store void_type eq_refl)
    as [(_ & Hzero & _) _].
  destruct (CheckedSizeOf_never_zero ILP32 cc65 no_store ptr_to_void eq_refl)
    as [(Hnz & _ & _) (_ & Hpzero & _)].
  split; [reflexivity|]. split; [by apply Hzero|].
  split; [by apply Hpzero|]. by apply Hnz.
Defined.

(** ** Characters *)

Lemma insert_cons_0 {A} (x a : A) (P : list A) : <[0%nat:=a]> (x :: P) = a :: P.
Proof. reflexivity. Qed.

Lemma insert_cons_S {A} (n : nat) (x a : A) (P : list A) :
  <[S n:=a]> (x :: P) = x :: <[n:=a]> P.
Proof. reflexivity. Qed.

Section Chars.
Context (abi : Abi) (h : Header).

Lemma GetCharArrayType_Ok (SignedChars : bool) junk Len :
  GetCharArrayType abi h SignedChars junk Len
  = Ok (T_ARRAY h :: chunks (DECODE_SIZE h) (to_ulong abi Len)
          ++ [GetDefaultChar h SignedChars; T_END h]).
Proof.
  unfold GetCharArrayType.
  pose proof (length_TypeAlloc junk (1 + DECODE_SIZE h + 2)) as HP.
  destruct (TypeAlloc junk (1 + DECODE_SIZE h + 2)) as [|x P];
    simpl in HP; [lia|].
  assert (∃ mid y1 y2, P = mid ++ [y1; y2] ∧ length mid = DECODE_SIZE h)
    as (mid & y1 & y2 & -> & Hmid).
  { exists (take (DECODE_SIZE h) P).
    pose proof (length_drop P (DECODE_SIZE h)) as Hd.
    pose proof (take_drop (DECODE_SIZE h) P) as Htd.
    destruct (drop (DECODE_SIZE h) P) as [|y1 [|y2 [|y3 tl]]];
      simpl in Hd; try lia.
    exists y1, y2. split; [done|]. rewrite length_take. lia. }
  clear HP.
  unfold wr. cbn [length].
  rewrite decide_True by lia. cbn [mbind res_bind].
  rewrite insert_cons_0, length_cons, length_app. cbn [length].
  rewrite decide_True by lia. cbn [mbind res_bind].
  replace (DECODE_SIZE h + 1)%nat with (S (length mid + 0)) by lia.
  rewrite insert_cons_S, insert_app_r, insert_cons_0.
  rewrite length_cons, length_app. cbn [length].
  rewrite decide_True by lia. cbn [mbind res_bind].
  replace (DECODE_SIZE h + 2)%nat with (S (length mid + 1)) by lia.
  rewrite insert_cons_S, insert_app_r, insert_cons_S, insert_cons_0.
  unfold at_offset. rewrite decide_True by (cbn [length]; lia).
  cbn [drop take]. rewrite drop_0, take_0. unfold Encode.
  rewrite Encode_loop_chunks by (rewrite length_app; lia).
  cbn [mbind res_bind]. rewrite <- Hmid at 2.
  by rewrite drop_app_length.
Qed.

End Chars.

Lemma SignExtendChar_bits (C i : Z) :
  0 ≤ i → Z.testbit (Z.lor C (Z.lnot 0xFF)) i = Z.testbit C i || (8 <=? i).
Proof.
  intros Hi. rewrite Z.lor_spec, Z.lnot_spec by done.
  change 0xFF with (Z.ones 8). rewrite Z.testbit_ones_nonneg by lia.
  f_equal. destruct (Z.ltb_spec i 8), (Z.leb_spec 8 i); simpl; lia.
Qed.

(** C7: the element tag of [GetCharArrayType (n)] is [T_UCHAR] when chars
    are unsigned by default and [T_SCHAR] when they are signed by default;
    [SignExtendChar (C)] sets the bits above the low byte only with signed
    chars and bit 0x80 of [C] set, and is [C & 0xFF] otherwise. *)
Theorem default_char_signedness (abi : Abi) (h : Header) (junk : nat → Z)
    (Len C : Z) :
  (∃ T, GetCharArrayType abi h false junk Len = Ok T
        ∧ T = T_ARRAY h :: chunks (DECODE_SIZE h) (to_ulong abi Len)
                ++ [T_UCHAR h; T_END h]
        ∧ T !! (DECODE_SIZE h + 1)%nat = Some (T_UCHAR h)) ∧
  (∃ T, GetCharArrayType abi h true junk Len = Ok T
        ∧ T = T_ARRAY h :: chunks (DECODE_SIZE h) (to_ulong abi Len)
                ++ [T_SCHAR h; T_END h]
        ∧ T !! (DECODE_SIZE h + 1)%nat = Some (T_SCHAR h)) ∧
  (Z.land C 0x80 ≠ 0 →
     SignExtendChar true C = Z.lor C (Z.lnot 0xFF)
     ∧ ∀ i, 0 ≤ i → Z.testbit (SignExtendChar true C) i
                    = Z.testbit C i || (8 <=? i)) ∧
  (Z.land C 0x80 = 0 → SignExtendChar true C = Z.land C 0xFF) ∧
  SignExtendChar false C = Z.land C 0xFF.
Proof.
  assert (∀ b, (T_ARRAY h :: chunks (DECODE_SIZE h) (to_ulong abi Len)
                  ++ [GetDefaultChar h b; T_END h]) !! (DECODE_SIZE h + 1)%nat
               = Some (GetDefaultChar h b)) as Hlk.
  { intros b. rewrite Nat.add_1_r, lookup_cons.
    rewrite lookup_app_r by (rewrite length_chunks; lia).
    rewrite length_chunks, Nat.sub_diag. done. }
  split; [|split; [|split; [|split]]].
  - eexists. split; [apply GetCharArrayType_Ok|].
    split; [done|]. apply (Hlk false).
  - eexists. split; [apply GetCharArrayType_Ok|].
    split; [done|]. apply (Hlk true).
  - intros Hbit. unfold SignExtendChar.
    destruct (Z.eqb_spec (Z.land C 128) 0); [done|]. simpl.
    split; [done|]. intros i Hi. by apply SignExtendChar_bits.
  - intros Hbit. unfold SignExtendChar. by rewrite Hbit.
  - done.
Qed.

(** ** Classification *)

Section TypeOf.
Context (abi : Abi) (h : Header) (st : Store) (Hh : HeaderOk h).

Lemma TypeOf_const t T flags :
  (UnqualifiedType h t, TfConst flags) ∈ TypeOf_cases h →
  TypeOf abi h st (t :: T) = Ok (flags, []).
Proof.
  intros Hin. unfold TypeOf. cbn [rd lookup list_lookup mbind res_bind].
  by rewrite (switch_In _ _ _ (ok_TypeOf_labels h Hh) Hin).
Qed.

Lemma TypeOf_default t T :
  UnqualifiedType h t ∉ (TypeOf_cases h).*1 →
  TypeOf abi h st (t :: T) = Ok (CF_INT h, ["Illegal type"%string]).
Proof.
  intros Hnin. unfold TypeOf. cbn [rd lookup list_lookup mbind res_bind].
  by rewrite (switch_None _ _ Hnin).
Qed.

Lemma TypeOf_diag t T r d :
  TypeOf abi h st (t :: T) = Ok (r, d) → d ≠ [] →
  UnqualifiedType h t ∉ (TypeOf_cases h).*1.
Proof.
  unfold TypeOf. cbn [rd lookup list_lookup mbind res_bind].
  destruct (switch (UnqualifiedType h t) (TypeOf_cases h)) as [[flags|]|] eqn:Hs.
  - by intros [= <- <-].
  - destruct (DecodePtr abi h (drop 1 (t :: T))) as [p|]; [|done].
    cbn [mbind res_bind]. destruct (deref (funcs st) p); [|done].
    by intros [= <- <-].
  - intros _ _. by apply switch_None_inv.
Qed.

Lemma T_VOID_unclassified : T_VOID h ∉ (TypeOf_cases h).*1.
Proof.
  pose proof (ok_SizeOf_labels h Hh) as Hnd. cbn in Hnd.
  apply NoDup_cons in Hnd as [Hvoid _]. intros Hin. apply Hvoid.
  cbn in Hin.
  repeat (apply elem_of_cons in Hin as [->|Hin]); [in_list..|].
  by apply elem_of_nil in Hin.
Qed.

End TypeOf.

(** C8: [TypeOf] maps every pointer, array, struct and union type to
    [CF_INT | CF_UNSIGNED]; for a type without a case of its own, such as
    void, it issues "Illegal type" and returns [CF_INT]; it issues a
    diagnostic in no other case. *)
Theorem TypeOf_address_classes (abi : Abi) (h : Header) (st : Store)
    (t : Z) (T : list Z) :
  HeaderOk h →
  (UnqualifiedType h t ∈ [T_PTR h; T_ARRAY h; T_STRUCT h; T_UNION h] →
     TypeOf abi h st (t :: T) = Ok (Z.lor (CF_INT h) (CF_UNSIGNED h), [])) ∧
  (UnqualifiedType h t = T_VOID h ∨ UnqualifiedType h t ∉ (TypeOf_cases h).*1 →
     TypeOf abi h st (t :: T) = Ok (CF_INT h, ["Illegal type"%string])) ∧
  (∀ r d, TypeOf abi h st (t :: T) = Ok (r, d) → d ≠ [] →
     UnqualifiedType h t ∉ (TypeOf_cases h).*1).
Proof.
  intros Hh. split; [|split].
  - intros Hin. apply TypeOf_const; [done|].
    repeat (apply elem_of_cons in Hin as [->|Hin]); [in_list..|].
    by apply elem_of_nil in Hin.
  - intros [Hvoid|Hnin]; apply TypeOf_default; try done.
    rewrite Hvoid. by apply T_VOID_unclassified.
  - intros r d. by apply TypeOf_diag.
Qed.

Lemma TypeOf_address_classes_witness :
  TypeOf ILP32 cc65 no_store int10 = Ok (0x11, []) ∧
  TypeOf ILP32 cc65 no_store void_type = Ok (0x01, ["Illegal type"%string]).
Proof.
  destruct (TypeOf_address_classes ILP32 cc65 no_store (T_ARRAY cc65)
              (chunks 5 10 ++ [T_INT cc65; T_END cc65]) cc65_ok)
    as (Haddr & _ & _).
  destruct (TypeOf_address_classes ILP32 cc65 no_store (T_VOID cc65)
              [T_END cc65] cc65_ok) as (_ & Hvoid & _).
  split.
  - apply Haddr. in_list.
  - apply Hvoid. by left.
Defined.

(** ** Qualifiers *)

Section Qualifiers.
Context (h : Header).

Lemma IsQualVolatile_false T b :
  Z.land (T_QUAL_CONST h) (T_QUAL_VOLATILE h) = 0 →
  IsQualVolatile h T = Ok b → b = false.
Proof.
  intros Hdisj. unfold IsQualVolatile, GetQualifier.
  destruct (IsTypeArray h T) as [a|]; [|done]. cbn [mbind res_bind].
  destruct (rd _ 0) as [t|]; [|done]. cbn [mbind res_bind].
  rewrite <- Z.land_assoc, Hdisj, Z.land_0_r. by intros [= <-].
Qed.

Lemma IsQualConst_plain t T :
  IsTypeArray h (t :: T) = Ok false →
  IsQualConst h (t :: T) = Ok (negb (Z.land t (T_QUAL_CONST h) =? 0)).
Proof.
  unfold IsQualConst, GetQualifier. intros ->. cbn.
  by rewrite <- Z.land_assoc, Z.land_diag.
Qed.

Lemma IsQualConst_array T e :
  IsTypeArray h T = Ok true →
  rd (drop (DECODE_SIZE h + 1) T) 0 = Ok e →
  IsQualConst h T = Ok (negb (Z.land e (T_QUAL_CONST h) =? 0)).
Proof.
  unfold IsQualConst, GetQualifier. intros -> He. cbn [mbind res_bind].
  rewrite He. cbn. by rewrite <- Z.land_assoc, Z.land_diag.
Qed.

End Qualifiers.

(** C5: on [volatile int], whose tag has the volatile bit set,
    [GetQualifier] keeps the const bit only, and [IsQualVolatile] answers
    false. *)
Theorem IsQualVolatile_volatile_int :
  Z.land (Z.lor (T_INT cc65) (T_QUAL_VOLATILE cc65)) (T_QUAL_VOLATILE cc65)
  = T_QUAL_VOLATILE cc65 ∧
  GetQualifier cc65 volatile_int = Ok 0 ∧
  IsQualVolatile cc65 volatile_int = Ok false.
Proof. by vm_compute. Qed.

(** C9: the array of ints of unspecified length, for which [SizeOf] takes
    the unspecified branch, is printed with the marker as its count instead
    of empty brackets. *)
Theorem PrintType_unspecified_array :
  GetElementCount ILP32 cc65 int_unspecified = Ok (-1) ∧
  SizeOf ILP32 cc65 no_store int_unspecified = Ok 0 ∧
  PrintType ILP32 cc65 no_store int_unspecified = Ok "int[4294967295]"%string.
Proof. by vm_compute. Qed.

Lemma default_char_signedness_witness :
  GetCharArrayType ILP32 cc65 false (λ _, 0x5A5A) 10
  = Ok [T_ARRAY cc65; 0x800A; 0x8000; 0x8000; 0x8000; 0x8000; T_UCHAR cc65; 0]
  ∧ GetCharArrayType ILP32 cc65 true (λ _, 0x5A5A) 10
    = Ok [T_ARRAY cc65; 0x800A; 0x8000; 0x8000; 0x8000; 0x8000; T_SCHAR cc65; 0]
  ∧ SignExtendChar true 0x80 = -128
  ∧ SignExtendChar true 0x17F = 0x7F
  ∧ SignExtendChar false 0x80 = 0x80.
Proof.
  destruct (default_char_signedness ILP32 cc65 (λ _, 0x5A5A) 10 0x80)
    as ((Tu & Hu & -> & _) & (Ts & Hs & -> & _) & Hext & _ & Hun).
  destruct (default_char_signedness ILP32 cc65 (λ _, 0x5A5A) 10 0x17F)
    as (_ & _ & _ & Hlow & _).
  split; [exact Hu|]. split; [exact Hs|].
  split; [by apply Hext|]. split; [by apply Hlow|]. exact Hun.
Defined.

(** ** Printing *)

Section Printing.
Context (abi : Abi) (h : Header) (st : Store).

(** An array: the element type first, then the count in brackets, empty
    brackets for the count 0. *)
Lemma PrintType_array (T0 : Z) (Ty : list Z) :
  T0 ≠ T_END h →
  switch (Z.land (PrintType_prefix h T0).2 (T_MASK_TYPE h)) (PrintType_cases h)
  = Some PrArray →
  PrintType abi h st (T0 :: Ty) =
    (elem ← PrintType abi h st (drop (DECODE_SIZE h) Ty);
     Size ← Decode abi h Ty;
     Ok ((PrintType_prefix h T0).1 +:+ elem +:+
         (if Size =? 0 then "[]" else "[" +:+ pretty Size +:+ "]"))).
Proof.
  intros Hne Hsw. simp PrintType.
  destruct (Z.eqb_spec T0 (T_END h)); [done|]. cbv zeta. by rewrite Hsw.
Qed.

(** A pointer: the pointee first, then [*]. *)
Lemma PrintType_ptr (T0 : Z) (Ty : list Z) :
  T0 ≠ T_END h →
  switch (Z.land (PrintType_prefix h T0).2 (T_MASK_TYPE h)) (PrintType_cases h)
  = Some PrPtr →
  PrintType abi h st (T0 :: Ty) =
    (inner ← PrintType abi h st Ty;
     Ok ((PrintType_prefix h T0).1 +:+ inner +:+ "*")).
Proof.
  intros Hne Hsw. simp PrintType.
  destruct (Z.eqb_spec T0 (T_END h)); [done|]. cbv zeta. by rewrite Hsw.
Qed.

End Printing.

Example PrintType_int10 :
  PrintType ILP32 cc65 no_store int10 = Ok "int[10]"%string.
Proof. by vm_compute. Qed.

Example PrintType_ptr_to_const_char :
  PrintType ILP32 cc65 no_store ptr_to_const_char
  = Ok "const unsigned char*"%string.
Proof. by vm_compute. Qed.

Example PrintType_count_zero :
  PrintType ILP32 cc65 no_store
    (flatten cc65 (CArray (T_ARRAY cc65) 0 (CBase (T_INT cc65))))
  = Ok "int[]"%string.
Proof. by vm_compute. Qed.

(** ** The element count on a host with a wide [long] *)

(** Where [long] is wider than [unsigned], the count that [GetElementCount]
    returns is never negative, so [SizeOf] never takes the branch for an
    unspecified length there. *)
Lemma GetElementCount_wide_long (abi : Abi) (h : Header) (T : list Z) (n : Z) :
  0 ≤ UINT_BITS abi < ULONG_BITS abi →
  GetElementCount abi h T = Ok n → 0 ≤ n.
Proof.
  intros Hw. unfold GetElementCount.
  destruct (IsTypeArray h T) as [a|]; [|done]. cbn [mbind res_bind].
  destruct (CHECK a); [|done]. cbn [mbind res_bind].
  destruct (Decode abi h (drop 1 T)) as [v|]; [|done]. cbn [mbind res_bind].
  intros [= <-]. unfold to_long, to_unsigned, swrap, wrap.
  pose proof (Z.mod_pos_bound v (2 ^ UINT_BITS abi)) as Hv.
  assert (2 ^ UINT_BITS abi ≤ 2 ^ (ULONG_BITS abi - 1))
    by (apply Z.pow_le_mono_r; lia).
  assert (2 ^ ULONG_BITS abi = 2 * 2 ^ (ULONG_BITS abi - 1)) as Hpow.
  { rewrite <- Z.pow_succ_r by lia. f_equal. lia. }
  assert (0 < 2 ^ UINT_BITS abi) by (apply Z.pow_pos_nonneg; lia).
  rewrite Z.mod_small by lia. lia.
Qed.

Example SizeOf_unspecified_LP64 :
  SizeOf LP64 cc65 no_store
    (flatten cc65
       (CArray (T_ARRAY cc65) (to_ulong LP64 (-1)) (CBase (T_INT cc65))))
  = Ok 4294967294.
Proof. by vm_compute. Qed.

(** * Further properties *)

(** ** The codec, continued *)

Section CodecMore.
Context (abi : Abi) (h : Header).

Lemma chunk_range x : 0x8000 ≤ Z.lor (wrap TYPE_BITS x) 0x8000 < 0x10000.
Proof.
  unfold wrap, TYPE_BITS.
  pose proof (Z.mod_pos_bound x (2 ^ 16) ltac:(lia)) as Hx.
  assert (0 ≤ Z.lor (x `mod` 2 ^ 16) 32768) as Hnn by (apply Z.lor_nonneg; lia).
  assert (Z.log2 (Z.lor (x `mod` 2 ^ 16) 32768)
          = Z.max (Z.log2 (x `mod` 2 ^ 16)) 15) as Hlog.
  { rewrite Z.log2_lor by lia. done. }
  assert (Z.log2 (x `mod` 2 ^ 16) < 16) as Hl.
  { destruct (decide (x `mod` 2 ^ 16 = 0)) as [->|]; [done|].
    apply Z.log2_lt_pow2; lia. }
  assert (0 < Z.lor (x `mod` 2 ^ 16) 32768) as Hpos.
  { destruct (decide (Z.lor (x `mod` 2 ^ 16) 32768 = 0)) as [Hz|]; [|lia].
    apply Z.lor_eq_0_iff in Hz. destruct Hz as [_ Hz]. discriminate Hz. }
  split.
  - apply (Z.log2_le_pow2 _ 15); lia.
  - apply (Z.log2_lt_pow2 _ 16); lia.
Qed.

Lemma chunks_range n v :
  Forall (λ t, 0x8000 ≤ t < 0x10000) (chunks n v).
Proof.
  revert v. induction n as [|n IH]; intros v; simpl; constructor;
    [apply chunk_range | apply IH].
Qed.

Lemma Encode_loop_short n Ty v :
  (length Ty < n)%nat → Encode_loop n Ty v = Err OutOfBounds.
Proof.
  revert Ty v. induction n as [|n IH]; intros Ty v Hn; simpl; [lia|].
  destruct Ty as [|t Ty]; simpl in *; [done|]. by rewrite IH by lia.
Qed.

Lemma chunk_mod x k :
  16 ≤ k →
  Z.lor (wrap TYPE_BITS (x `mod` 2 ^ k)) 0x8000 = Z.lor (wrap TYPE_BITS x) 0x8000.
Proof.
  intros Hk. f_equal. unfold wrap, TYPE_BITS.
  apply Z.bits_inj'. intros i Hi. destruct (decide (i < 16)).
  - by rewrite !Z.mod_pow2_bits_low by lia.
  - by rewrite !Z.mod_pow2_bits_high by lia.
Qed.

Lemma chunk_mod15 x :
  Z.lor (wrap TYPE_BITS (x `mod` 2 ^ 15)) 0x8000 = Z.lor (wrap TYPE_BITS x) 0x8000.
Proof.
  unfold wrap, TYPE_BITS. apply Z.bits_inj'. intros i Hi.
  rewrite !Z.lor_spec. destruct (decide (i < 15)).
  - by rewrite !Z.mod_pow2_bits_low by lia.
  - destruct (decide (i = 15)) as [->|]; [by rewrite !orb_true_r|].
    by rewrite !Z.mod_pow2_bits_high by lia.
Qed.

Lemma chunks_mod n v :
  chunks n (v `mod` 2 ^ (15 * Z.of_nat n)) = chunks n v.
Proof.
  revert v. induction n as [|n IH]; intros v; [done|].
  cbn [chunks]. f_equal.
  - destruct n as [|n]; [apply chunk_mod15|]. apply chunk_mod. lia.
  - rewrite <- (IH (Z.shiftr v 15)). f_equal.
    rewrite !Z.shiftr_div_pow2 by lia.
    replace (15 * Z.of_nat (S n)) with (15 + 15 * Z.of_nat n) by lia.
    rewrite Z.pow_add_r by lia.
    rewrite Z.rem_mul_r by lia.
    rewrite (Z.mul_comm (2 ^ 15)), Z.div_add by lia.
    rewrite (Z.div_small (v `mod` 2 ^ 15)) by (apply Z.mod_pos_bound; lia).
    done.
Qed.

Lemma Decode_loop_short n Ty v :
  (length Ty < n)%nat → Decode_loop abi n Ty v = Err OutOfBounds.
Proof.
  destruct n as [|n]; [lia|]. intros Hn. cbn [Decode_loop]. unfold rd.
  by rewrite lookup_ge_None_2 by lia.
Qed.

Lemma Decode_loop_range n Ty v :
  15 ≤ ULONG_BITS abi → (n ≤ length Ty)%nat → 0 ≤ v < 2 ^ ULONG_BITS abi →
  ∃ r, Decode_loop abi n Ty v = Ok r ∧ 0 ≤ r < 2 ^ ULONG_BITS abi.
Proof.
  intros Hw. revert v. induction n as [|n IH]; intros v Hn Hv.
  - by exists v.
  - cbn [Decode_loop]. destruct (lookup_lt_is_Some_2 Ty n ltac:(lia)) as [t Ht].
    rewrite (rd_Some _ _ _ Ht). cbn [mbind res_bind]. apply IH; [lia|].
    unfold to_ulong, wrap.
    pose proof (Z.mod_pos_bound (Z.shiftl v 15) (2 ^ ULONG_BITS abi)
                  ltac:(lia)) as Ha.
    assert (0 ≤ Z.land t 32767) as Hb1 by (apply Z.land_nonneg; lia).
    assert (Z.land t 32767 < 2 ^ 15) as Hb2.
    { change 32767 with (Z.ones 15). rewrite Z.land_ones by lia.
      apply Z.mod_pos_bound. lia. }
    assert (2 ^ 15 ≤ 2 ^ ULONG_BITS abi) by (apply Z.pow_le_mono_r; lia).
    set (a := Z.shiftl v 15 `mod` 2 ^ ULONG_BITS abi) in *.
    set (b := Z.land t 32767) in *.
    split; [apply Z.lor_nonneg; lia|].
    destruct (decide (Z.lor a b = 0)) as [->|Hnz]; [lia|].
    assert (0 ≤ Z.lor a b) by (apply Z.lor_nonneg; lia).
    apply Z.log2_lt_pow2; [lia|]. rewrite Z.log2_lor by lia.
    apply Z.max_lub_lt.
    + destruct (decide (a = 0)) as [->|]; [simpl; lia|].
      apply Z.log2_lt_pow2; lia.
    + destruct (decide (b = 0)) as [->|]; [simpl; lia|].
      apply Z.log2_lt_pow2; lia.
Qed.

Lemma Decode_loop_take n m Ty v :
  (n ≤ m)%nat → Decode_loop abi n (take m Ty) v = Decode_loop abi n Ty v.
Proof.
  revert v. induction n as [|n IH]; intros v Hn; [done|].
  cbn [Decode_loop]. unfold rd. rewrite lookup_take_lt by lia.
  destruct (Ty !! n); [|done]. cbn [mbind res_bind]. apply IH. lia.
Qed.

Lemma Decode_take Ty : Decode abi h (take (DECODE_SIZE h) Ty) = Decode abi h Ty.
Proof. by apply Decode_loop_take. Qed.

Lemma Decode_app l rest :
  length l = DECODE_SIZE h → Decode abi h (l ++ rest) = Decode abi h l.
Proof.
  intros Hl. rewrite <- (Decode_take (l ++ rest)), <- (Decode_take l).
  by rewrite take_app_length', take_ge by lia.
Qed.

End CodecMore.

(** X1: [Encode] writes exactly [DECODE_SIZE] slots: the buffer keeps its
    length, the tokens behind the slots are untouched and every slot holds a
    value in [0x8000, 0xFFFF]; on a buffer with fewer slots it runs off the
    end. *)
Theorem Encode_writes_slots (h : Header) (Ty : list Z) (v : Z) :
  ((DECODE_SIZE h ≤ length Ty)%nat →
     ∃ Ty', Encode h Ty v = Ok Ty'
            ∧ length Ty' = length Ty
            ∧ drop (DECODE_SIZE h) Ty' = drop (DECODE_SIZE h) Ty
            ∧ Forall (λ t, 0x8000 ≤ t < 0x10000) (take (DECODE_SIZE h) Ty')) ∧
  ((length Ty < DECODE_SIZE h)%nat → Encode h Ty v = Err OutOfBounds).
Proof.
  split.
  - intros Hlen. exists (chunks (DECODE_SIZE h) v ++ drop (DECODE_SIZE h) Ty).
    split; [by apply Encode_loop_chunks|].
    pose proof (length_chunks (DECODE_SIZE h) v) as Hc.
    split; [rewrite length_app, length_drop; lia|].
    split.
    + by rewrite drop_app_length' by done.
    + rewrite take_app_length' by done. apply chunks_range.
  - apply Encode_loop_short.
Qed.

(** X2: for every [unsigned long] value, [Decode] after [Encode]
    returns the value reduced modulo 2^(15 * DECODE_SIZE): bits that do not
    fit the slots are dropped, nothing else changes. *)
Theorem Decode_Encode_truncates (abi : Abi) (h : Header) (Ty : list Z) (v : Z) :
  (DECODE_SIZE h ≤ length Ty)%nat →
  0 ≤ v < 2 ^ ULONG_BITS abi →
  ∃ Ty', Encode h Ty v = Ok Ty'
         ∧ Decode abi h Ty' = Ok (v `mod` 2 ^ (15 * Z.of_nat (DECODE_SIZE h))).
Proof.
  intros Hlen Hv.
  exists (chunks (DECODE_SIZE h) v ++ drop (DECODE_SIZE h) Ty).
  split; [by apply Encode_loop_chunks|].
  rewrite <- chunks_mod.
  pose proof (Z.mod_pos_bound v (2 ^ (15 * Z.of_nat (DECODE_SIZE h)))
                ltac:(lia)) as Hm.
  assert (v `mod` 2 ^ (15 * Z.of_nat (DECODE_SIZE h)) ≤ v)
    by (apply Z.mod_le; lia).
  apply Decode_chunks; lia.
Qed.

(** X3: [Decode] reads the first [DECODE_SIZE] tokens only and returns
    an [unsigned long] value; on a buffer with fewer tokens it runs off the
    end. *)
Theorem Decode_reads_slots (abi : Abi) (h : Header) (Ty : list Z) :
  15 ≤ ULONG_BITS abi →
  ((DECODE_SIZE h ≤ length Ty)%nat →
     ∃ v, Decode abi h Ty = Ok v ∧ 0 ≤ v < 2 ^ ULONG_BITS abi
          ∧ Decode abi h (take (DECODE_SIZE h) Ty) = Ok v) ∧
  ((length Ty < DECODE_SIZE h)%nat → Decode abi h Ty = Err OutOfBounds).
Proof.
  intros Hw. split.
  - intros Hlen.
    destruct (Decode_loop_range abi (DECODE_SIZE h) Ty 0 Hw Hlen) as (v & Hv & Hr).
    { split; [done|]. apply Z.pow_pos_nonneg; lia. }
    exists v. split; [done|]. split; [done|]. by rewrite Decode_take.
  - apply Decode_loop_short.
Qed.

(** X4: after [CopyEncode] the target decodes to what the source
    decodes to, and the target's tokens behind the slots are untouched. *)
Theorem CopyEncode_Decode (abi : Abi) (h : Header) (Source Target : list Z) :
  (DECODE_SIZE h ≤ length Source)%nat →
  (DECODE_SIZE h ≤ length Target)%nat →
  ∃ Target', CopyEncode h Source Target = Ok Target'
             ∧ Decode abi h Target' = Decode abi h Source
             ∧ drop (DECODE_SIZE h) Target' = drop (DECODE_SIZE h) Target
             ∧ length Target' = length Target.
Proof.
  intros HS HT. unfold CopyEncode, memcpy. rewrite decide_True by done.
  eexists. split; [done|].
  assert (length (take (DECODE_SIZE h) Source) = DECODE_SIZE h) as Hl
    by (rewrite length_take; lia).
  split; [|split].
  - by rewrite Decode_app, Decode_take.
  - by rewrite drop_app_length'.
  - rewrite length_app, length_drop. lia.
Qed.

(** ** Length, copy, concatenation and duplication *)

Section StringsMore.
Context (h : Header).

Lemma TypeLen_Err T : T_END h ∉ T → TypeLen h T = Err OutOfBounds.
Proof.
  induction T as [|t T IH]; [done|]. rewrite not_elem_of_cons.
  intros [Hne Hnin]. cbn [TypeLen].
  destruct (Z.eqb_spec t (T_END h)); [congruence|]. by rewrite IH.
Qed.

Lemma TypeLen_Ok_inv T n :
  T !! n = Some (T_END h) → T_END h ∉ take n T → TypeLen h T = Ok n.
Proof.
  intros Hn Hnin. rewrite <- (take_drop_middle T n (T_END h) Hn).
  rewrite TypeLen_app, TypeLen_END.
  - cbn. rewrite length_take_le; [f_equal; lia|].
    apply lookup_lt_Some in Hn. lia.
  - apply Forall_forall. intros t Ht ->. done.
Qed.

Lemma TypeLen_take T n :
  TypeLen h T = Ok n → TypeLen h (take (S n) T ++ drop (S n) T) = Ok n
  ∧ ∀ rest, TypeLen h (take (S n) T ++ rest) = Ok n.
Proof.
  intros Hn. destruct (TypeLen_Ok h T n Hn) as (Hlt & Hend & Hpre).
  assert (∀ rest, TypeLen h (take (S n) T ++ rest) = Ok n) as Hall.
  { intros rest. rewrite (take_S_r T n (T_END h) Hend), <- app_assoc.
    rewrite TypeLen_app by done. cbn [app]. rewrite TypeLen_END. cbn.
    rewrite length_take_le by lia. f_equal. lia. }
  split; [apply Hall|done].
Qed.

Lemma TypeCpy_short pre Src Dest :
  Forall (λ t, t ≠ 0) pre → (length Dest ≤ length pre)%nat →
  TypeCpy Dest (pre ++ 0 :: Src) = Err OutOfBounds.
Proof.
  intros Hpre. revert Dest.
  induction Hpre as [|t pre Ht Hpre IH]; intros Dest Hlen.
  - destruct Dest; simpl in *; [done|lia].
  - destruct Dest as [|d Dest]; [done|]. simpl in *.
    destruct (Z.eqb_spec t 0); [done|]. by rewrite IH by lia.
Qed.

Lemma TypeCpy_TypeLen Dest Src n :
  T_END h = 0 → TypeLen h Src = Ok n → (n < length Dest)%nat →
  TypeCpy Dest Src = Ok (take (S n) Src ++ drop (S n) Dest).
Proof.
  intros Hend Hn Hlen. destruct (TypeLen_Ok h Src n Hn) as (Hlt & Hs & Hpre).
  rewrite Hend in *.
  rewrite <- (take_drop_middle Src n 0 Hs) at 1.
  rewrite TypeCpy_app by (done || rewrite length_take_le; lia).
  rewrite length_take_le by lia.
  by rewrite (take_S_r Src n 0 Hs), <- app_assoc.
Qed.

Lemma TypeLen_elem T : T_END h ∈ T → ∃ n, TypeLen h T = Ok n.
Proof.
  induction T as [|t T IH]; [by intros ?%elem_of_nil|].
  cbn [TypeLen]. destruct (Z.eqb_spec t (T_END h)) as [Heq|Hne].
  - by exists 0%nat.
  - intros [Heq|Hin]%elem_of_cons; [congruence|].
    destruct (IH Hin) as [n ->]. by exists (S n).
Qed.

End StringsMore.

(** X5: [TypeLen] returns [n] exactly when token [n] is the first
    [T_END] of the buffer, and runs off the end exactly when the buffer holds
    no [T_END]. *)
Theorem TypeLen_first_sentinel (h : Header) (T : list Z) (n : nat) :
  (TypeLen h T = Ok n ↔ T !! n = Some (T_END h) ∧ T_END h ∉ take n T) ∧
  (TypeLen h T = Err OutOfBounds ↔ T_END h ∉ T).
Proof.
  split; split.
  - intros Hn. destruct (TypeLen_Ok h T n Hn) as (_ & Hend & Hpre).
    split; [done|]. rewrite Forall_forall in Hpre. intros Hin.
    by apply (Hpre _ Hin).
  - intros [Hn Hnin]. by apply TypeLen_Ok_inv.
  - intros Herr Hin. destruct (TypeLen_elem h T Hin) as [m Hm]. congruence.
  - apply TypeLen_Err.
Qed.

(** X6: for a source of length [n], [TypeCpy] overwrites the first
    [n + 1] tokens of the destination with the source up to its sentinel,
    leaves the rest alone, and the result has length [n]; a destination of
    [n] tokens or fewer is overrun. *)
Theorem TypeCpy_copies_string (h : Header) (Dest Src : list Z) (n : nat) :
  T_END h = 0 →
  TypeLen h Src = Ok n →
  ((n < length Dest)%nat →
     ∃ Dest', TypeCpy Dest Src = Ok Dest'
              ∧ Dest' = take (S n) Src ++ drop (S n) Dest
              ∧ TypeLen h Dest' = Ok n) ∧
  ((length Dest ≤ n)%nat → TypeCpy Dest Src = Err OutOfBounds).
Proof.
  intros Hend Hn. split.
  - intros Hlen. eexists. split; [by apply (TypeCpy_TypeLen h)|].
    split; [done|]. by apply TypeLen_take.
  - intros Hlen. destruct (TypeLen_Ok h Src n Hn) as (Hlt & Hs & Hpre).
    rewrite Hend in *. rewrite <- (take_drop_middle Src n 0 Hs).
    apply TypeCpy_short; [done|]. rewrite length_take_le; lia.
Qed.

(** X7: [TypeCat] puts the source at the sentinel of the destination:
    the lengths add up, the tokens in front of the old sentinel and behind the
    new one stay; a destination with no room for both strings is overrun. *)
Theorem TypeCat_appends (h : Header) (Dest Src : list Z) (n m : nat) :
  T_END h = 0 →
  TypeLen h Dest = Ok n →
  TypeLen h Src = Ok m →
  ((n + m < length Dest)%nat →
     ∃ Dest', TypeCat h Dest Src = Ok Dest'
              ∧ Dest' = take n Dest ++ take (S m) Src ++ drop (n + S m) Dest
              ∧ TypeLen h Dest' = Ok (n + m)%nat) ∧
  ((length Dest ≤ n + m)%nat → TypeCat h Dest Src = Err OutOfBounds).
Proof.
  intros Hend Hn Hm. destruct (TypeLen_Ok h Dest n Hn) as (Hlt & Hs & Hpre).
  unfold TypeCat, at_offset. rewrite Hn. cbn [mbind res_bind].
  rewrite decide_True by lia. split.
  - intros Hlen.
    rewrite (TypeCpy_TypeLen h (drop n Dest) Src m Hend Hm)
      by (rewrite length_drop; lia).
    cbn [mbind res_bind]. rewrite drop_drop.
    eexists. split; [done|]. split; [done|].
    rewrite TypeLen_app by done.
    destruct (TypeLen_take h Src m Hm) as [_ Hall]. rewrite Hall. cbn.
    rewrite length_take_le by lia. done.
  - intros Hlen. destruct (TypeLen_Ok h Src m Hm) as (Hlt' & Hs' & Hpre').
    rewrite Hend in *. rewrite <- (take_drop_middle Src m 0 Hs').
    rewrite TypeCpy_short; [done|done|].
    rewrite length_drop, length_take_le; lia.
Qed.

(** X8: [TypeDup] returns the [TypeLen (T) + 1] tokens of [T] up to and
    including the sentinel, whatever the allocator left in the block, and the
    copy has the length of [T]. *)
Theorem TypeDup_copy (h : Header) (junk : nat → Z) (T : list Z) (n : nat) :
  TypeLen h T = Ok n →
  ∃ D, TypeDup h junk T = Ok D
       ∧ D = take (S n) T
       ∧ length D = S n
       ∧ TypeLen h D = Ok n.
Proof.
  intros Hn. destruct (TypeLen_Ok h T n Hn) as (Hlt & Hs & Hpre).
  unfold TypeDup, memcpy. rewrite Hn. cbn [mbind res_bind].
  rewrite length_TypeAlloc. rewrite decide_True by lia.
  rewrite drop_ge by (rewrite length_TypeAlloc; lia).
  rewrite app_nil_r. replace (n + 1)%nat with (S n) by lia.
  eexists. split; [done|]. split; [done|].
  split; [rewrite length_take_le; lia|].
  destruct (TypeLen_take h T n Hn) as [_ Hall].
  specialize (Hall []). by rewrite app_nil_r in Hall.
Qed.

Lemma cc65_layout : TagLayout cc65.
Proof.
  split; try reflexivity;
    match goal with |- ?P => apply (@bool_decide_unpack P _) end;
    vm_compute; exact I.
Qed.

(** ** Tags up to qualifiers *)

Section Tags.
Context (abi : Abi) (h : Header) (Hh : HeaderOk h).

Lemma tag_type t tag :
  UnqualifiedType h t = tag →
  Z.land t (T_MASK_TYPE h) = Z.land tag (T_MASK_TYPE h).
Proof.
  intros <-. unfold UnqualifiedType.
  by rewrite <- Z.land_assoc, (land_lnot_disjoint _ _ (ok_QUAL_TYPE h Hh)).
Qed.

Lemma tag_class t tag :
  UnqualifiedType h t = tag →
  Z.land t (T_MASK_CLASS h) = Z.land tag (T_MASK_CLASS h).
Proof.
  intros <-. unfold UnqualifiedType.
  by rewrite <- Z.land_assoc, (land_lnot_disjoint _ _ (ok_QUAL_CLASS h Hh)).
Qed.

Lemma labels_ne x y (i j : nat) :
  (SizeOf_cases h).*1 !! i = Some x → (SizeOf_cases h).*1 !! j = Some y →
  i ≠ j → x ≠ y.
Proof.
  intros Hi Hj Hij ->. apply Hij.
  by apply (NoDup_lookup _ _ _ _ (ok_SizeOf_labels h Hh) Hi Hj).
Qed.

Lemma T_FUNC_ne_PTR : T_FUNC h ≠ T_PTR h.
Proof. by apply (labels_ne _ _ 8%nat 7%nat). Qed.

Lemma DecodePtr_chunks p rest :
  0 ≤ p < 2 ^ PTR_BITS abi →
  PTR_BITS abi ≤ ULONG_BITS abi →
  PTR_BITS abi ≤ 15 * Z.of_nat (DECODE_SIZE h) →
  DecodePtr abi h (chunks (DECODE_SIZE h) p ++ rest) = Ok p.
Proof.
  intros Hp Hw Hn. unfold DecodePtr.
  assert (2 ^ PTR_BITS abi ≤ 2 ^ ULONG_BITS abi)
    by (apply Z.pow_le_mono_r; lia).
  assert (2 ^ PTR_BITS abi ≤ 2 ^ (15 * Z.of_nat (DECODE_SIZE h)))
    by (apply Z.pow_le_mono_r; lia).
  rewrite Decode_chunks by lia. cbn. unfold to_ptr, wrap.
  by rewrite Z.mod_small.
Qed.

Lemma drop_payload t v rest :
  drop (DECODE_SIZE h + 1) (t :: chunks (DECODE_SIZE h) v ++ rest) = rest.
Proof.
  rewrite Nat.add_1_r. cbn [drop].
  by rewrite drop_app_length' by (symmetry; apply length_chunks).
Qed.

End Tags.

(** ** Function types *)

(** X9: for a function type with descriptor [d] and for a pointer
    to it (qualified or not), [GetFuncDesc] returns [d] and [GetFuncReturn]
    the return type. *)
Theorem GetFuncDesc_function (abi : Abi) (h : Header) (t d : Z) (ret : ctype) :
  HeaderOk h →
  UnqualifiedType h t = T_PTR h →
  0 ≤ d < 2 ^ PTR_BITS abi →
  PTR_BITS abi ≤ ULONG_BITS abi →
  PTR_BITS abi ≤ 15 * Z.of_nat (DECODE_SIZE h) →
  GetFuncDesc abi h (flatten h (CFunc (T_FUNC h) d ret)) = Ok d ∧
  GetFuncDesc abi h (t :: flatten h (CFunc (T_FUNC h) d ret)) = Ok d ∧
  GetFuncReturn h (flatten h (CFunc (T_FUNC h) d ret)) = Ok (flatten h ret) ∧
  GetFuncReturn h (t :: flatten h (CFunc (T_FUNC h) d ret))
  = Ok (flatten h ret).
Proof.
  intros Hh Ht Hd Hw Hn. cbn [flatten].
  unfold GetFuncDesc, GetFuncReturn. cbn [rd lookup list_lookup mbind res_bind].
  rewrite Ht, Z.eqb_refl.
  rewrite (tag_unqual h Hh (T_FUNC h)) by in_list.
  destruct (Z.eqb_spec (T_FUNC h) (T_PTR h)) as [He|_];
    [by apply T_FUNC_ne_PTR in He|].
  cbn [drop rd lookup list_lookup mbind res_bind]. rewrite ?drop_0.
  cbn [rd lookup list_lookup mbind res_bind]. rewrite Z.eqb_refl.
  cbn [CHECK mbind res_bind drop]. rewrite ?drop_0.
  rewrite DecodePtr_chunks by done.
  pose proof (drop_payload h (T_FUNC h) d (flatten h ret)) as Hdrop.
  rewrite Nat.add_comm in Hdrop. by rewrite Hdrop.
Qed.

(** X10: [GetFuncDesc] and [GetFuncReturn] fail their check on a
    type whose tag is not exactly [T_FUNC], directly or behind one pointer
    tag; a pointer to a pointer to a function is rejected as well. *)
Theorem GetFuncDesc_rejects (abi : Abi) (h : Header) (t : Z) (T : list Z) :
  t ≠ T_FUNC h →
  (UnqualifiedType h t ≠ T_PTR h →
     GetFuncDesc abi h (t :: T) = Err CheckFailed
     ∧ GetFuncReturn h (t :: T) = Err CheckFailed) ∧
  (∀ p, UnqualifiedType h p = T_PTR h →
     GetFuncDesc abi h (p :: t :: T) = Err CheckFailed
     ∧ GetFuncReturn h (p :: t :: T) = Err CheckFailed).
Proof.
  intros Hne. split.
  - intros Hp. unfold GetFuncDesc, GetFuncReturn.
    cbn [rd lookup list_lookup mbind res_bind].
    destruct (Z.eqb_spec (UnqualifiedType h t) (T_PTR h)); [done|].
    cbn [rd lookup list_lookup mbind res_bind].
    by destruct (Z.eqb_spec t (T_FUNC h)).
  - intros p Hp. unfold GetFuncDesc, GetFuncReturn.
    cbn [rd lookup list_lookup mbind res_bind]. rewrite Hp, Z.eqb_refl.
    cbn [drop]. rewrite drop_0. cbn [rd lookup list_lookup mbind res_bind].
    by destruct (Z.eqb_spec t (T_FUNC h)).
Qed.

(** X11: for a function type, [TypeOf] is 0 when [IsVariadicFunc]
    holds and [CF_FIXARGC] when it does not, without a diagnostic. *)
Theorem TypeOf_function_variadic (abi : Abi) (h : Header) (st : Store)
    (T1 : list Z) (b : bool) :
  HeaderOk h →
  IsVariadicFunc abi h st (T_FUNC h :: T1) = Ok b →
  TypeOf abi h st (T_FUNC h :: T1) = Ok (if b then 0 else CF_FIXARGC h, []).
Proof.
  intros Hh. unfold IsVariadicFunc, GetFuncDesc, TypeOf.
  cbn [rd lookup list_lookup mbind res_bind].
  rewrite (tag_unqual h Hh (T_FUNC h)) by in_list.
  destruct (Z.eqb_spec (T_FUNC h) (T_PTR h)) as [He|_];
    [by apply T_FUNC_ne_PTR in He|].
  cbn [rd lookup list_lookup mbind res_bind]. rewrite Z.eqb_refl.
  cbn [CHECK mbind res_bind].
  rewrite (switch_In _ TfFunc _ (ok_TypeOf_labels h Hh)) by in_list.
  destruct (DecodePtr abi h (drop 1 (T_FUNC h :: T1))) as [p|]; [|done].
  cbn [mbind res_bind]. destruct (deref (funcs st) p) as [F|]; [|done].
  cbn [mbind res_bind]. intros [= <-].
  by destruct (Z.land (Flags F) (FD_VARIADIC h) =? 0).
Qed.

(** ** The leading tag of a well-formed type *)

Section Kinds.
Context (abi : Abi) (h : Header) (Hh : HeaderOk h) (Hl : TagLayout h).

Lemma types_ne x y (i j : nat) :
  (PrintType_cases h).*1 !! i = Some x → (PrintType_cases h).*1 !! j = Some y →
  i ≠ j → x ≠ y.
Proof.
  intros Hi Hj Hij ->. apply Hij.
  by apply (NoDup_lookup _ _ _ _ (ok_PrintType_labels h Hh) Hi Hj).
Qed.

Lemma flatten_cons c : ∃ tail, flatten h c = leading_tag c :: tail.
Proof. destruct c; cbn; eauto. Qed.

Lemma base_tag_In t :
  existsb (is_tag h t) (base_tags h) = true → UnqualifiedType h t ∈ base_tags h.
Proof.
  intros (tag & Hin & Ht)%existsb_exists. apply Z.eqb_eq in Ht.
  rewrite Ht. by apply list_elem_of_In.
Qed.

(** The base type and the class of the leading tag, by kind of type. *)
Lemma wf_kind c :
  well_formed h c = true →
  match c with
  | CBase t =>
      (Z.land t (T_MASK_TYPE h)
       ∉ [T_TYPE_STRUCT h; T_TYPE_UNION h; T_TYPE_ARRAY h; T_TYPE_PTR h;
          T_TYPE_FUNC h])
      ∧ (Z.land t (T_MASK_CLASS h) ∉ [T_CLASS_PTR h; T_CLASS_STRUCT h])
  | CPtr t _ =>
      Z.land t (T_MASK_TYPE h) = T_TYPE_PTR h
      ∧ Z.land t (T_MASK_CLASS h) = T_CLASS_PTR h
  | CArray t _ _ =>
      Z.land t (T_MASK_TYPE h) = T_TYPE_ARRAY h
      ∧ Z.land t (T_MASK_CLASS h) = T_CLASS_PTR h
  | CFunc t _ _ =>
      Z.land t (T_MASK_TYPE h) = T_TYPE_FUNC h
      ∧ (Z.land t (T_MASK_CLASS h) ∉ [T_CLASS_PTR h; T_CLASS_STRUCT h])
  | CStruct t _ =>
      (Z.land t (T_MASK_TYPE h) ∈ [T_TYPE_STRUCT h; T_TYPE_UNION h])
      ∧ Z.land t (T_MASK_CLASS h) = T_CLASS_STRUCT h
  end.
Proof.
  destruct c as [t|t c|t n c|t d c|t s]; cbn [well_formed].
  - intros Hin%base_tag_In.
    rewrite (tag_type h Hh t _ eq_refl), (tag_class h Hh t _ eq_refl).
    pose proof (lay_base_type h Hl) as Ht. pose proof (lay_base_class h Hl) as Hc.
    rewrite Forall_forall in Ht, Hc. split; [by apply Ht | by apply Hc].
  - intros [Ht%Z.eqb_eq _]%andb_prop.
    rewrite (tag_type h Hh t _ Ht), (tag_class h Hh t _ Ht).
    by rewrite (ok_PTR_type h Hh), (ok_PTR_class h Hh).
  - intros [Ht%Z.eqb_eq _]%andb_prop.
    by rewrite (array_tag_type h Hh t Ht), (array_tag_class h Hh t Ht).
  - intros [Ht%Z.eqb_eq _]%andb_prop.
    rewrite (tag_type h Hh t _ Ht), (tag_class h Hh t _ Ht).
    rewrite (lay_FUNC_type h Hl). split; [done|apply (lay_FUNC_class h Hl)].
  - intros [Ht%Z.eqb_eq|Ht%Z.eqb_eq]%orb_prop;
      rewrite (tag_type h Hh t _ Ht), (tag_class h Hh t _ Ht).
    + rewrite (lay_STRUCT_type h Hl), (lay_STRUCT_class h Hl).
      split; [in_list|done].
    + rewrite (lay_UNION_type h Hl), (lay_UNION_class h Hl).
      split; [in_list|done].
Qed.

Lemma IsTypeArray_flatten c :
  well_formed h c = true →
  IsTypeArray h (flatten h c)
  = Ok (match c with CArray _ _ _ => true | _ => false end).
Proof.
  intros Hc. pose proof (wf_kind c Hc) as Hk.
  destruct (flatten_cons c) as [tail ->]. unfold IsTypeArray.
  cbn [rd lookup list_lookup mbind res_bind]. f_equal.
  destruct c as [t|t c|t n c|t d c|t s]; cbn [leading_tag] in *;
    destruct Hk as [Ht _].
  - apply Z.eqb_neq. intros He. apply Ht. rewrite He. in_list.
  - rewrite Ht. apply Z.eqb_neq. by apply (types_ne _ _ 11%nat 10%nat).
  - rewrite Ht. apply Z.eqb_refl.
  - rewrite Ht. apply Z.eqb_neq. by apply (types_ne _ _ 12%nat 10%nat).
  - apply Z.eqb_neq. intros He. rewrite He in Ht.
    apply elem_of_cons in Ht as [Ht|Ht].
    + by apply (types_ne _ _ 10%nat 8%nat) in Ht.
    + apply elem_of_cons in Ht as [Ht|Ht]; [|by apply elem_of_nil in Ht].
      by apply (types_ne _ _ 10%nat 9%nat) in Ht.
Qed.

Lemma IsTypeFunc_flatten c :
  well_formed h c = true →
  IsTypeFunc h (flatten h c)
  = Ok (match c with CFunc _ _ _ => true | _ => false end).
Proof.
  intros Hc. pose proof (wf_kind c Hc) as Hk.
  destruct (flatten_cons c) as [tail ->]. unfold IsTypeFunc.
  cbn [rd lookup list_lookup mbind res_bind]. f_equal.
  destruct c as [t|t c|t n c|t d c|t s]; cbn [leading_tag] in *;
    destruct Hk as [Ht _].
  - apply Z.eqb_neq. intros He. apply Ht. rewrite He. in_list.
  - rewrite Ht. apply Z.eqb_neq. by apply (types_ne _ _ 11%nat 12%nat).
  - rewrite Ht. apply Z.eqb_neq. by apply (types_ne _ _ 10%nat 12%nat).
  - rewrite Ht. apply Z.eqb_refl.
  - apply Z.eqb_neq. intros He. rewrite He in Ht.
    apply elem_of_cons in Ht as [Ht|Ht].
    + by apply (types_ne _ _ 12%nat 8%nat) in Ht.
    + apply elem_of_cons in Ht as [Ht|Ht]; [|by apply elem_of_nil in Ht].
      by apply (types_ne _ _ 12%nat 9%nat) in Ht.
Qed.

Lemma IsClassStruct_flatten c :
  well_formed h c = true →
  IsClassStruct h (flatten h c)
  = Ok (match c with CStruct _ _ => true | _ => false end).
Proof.
  intros Hc. pose proof (wf_kind c Hc) as Hk.
  destruct (flatten_cons c) as [tail ->]. unfold IsClassStruct.
  cbn [rd lookup list_lookup mbind res_bind]. f_equal.
  destruct c as [t|t c|t n c|t d c|t s]; cbn [leading_tag] in *;
    destruct Hk as [_ Hc'].
  - apply Z.eqb_neq. intros He. apply Hc'. rewrite He. in_list.
  - rewrite Hc'. apply Z.eqb_neq. apply (lay_classes h Hl).
  - rewrite Hc'. apply Z.eqb_neq. apply (lay_classes h Hl).
  - apply Z.eqb_neq. intros He. apply Hc'. rewrite He. in_list.
  - rewrite Hc'. apply Z.eqb_refl.
Qed.

Lemma IsClassPtr_flatten c :
  well_formed h c = true →
  IsClassPtr h (flatten h c)
  = Ok (match c with CPtr _ _ | CArray _ _ _ => true | _ => false end).
Proof.
  intros Hc. pose proof (wf_kind c Hc) as Hk.
  destruct (flatten_cons c) as [tail ->]. unfold IsClassPtr.
  cbn [rd lookup list_lookup mbind res_bind]. f_equal.
  destruct c as [t|t c|t n c|t d c|t s]; cbn [leading_tag] in *;
    destruct Hk as [_ Hc'].
  - apply Z.eqb_neq. intros He. apply Hc'. rewrite He. in_list.
  - rewrite Hc'. apply Z.eqb_refl.
  - rewrite Hc'. apply Z.eqb_refl.
  - apply Z.eqb_neq. intros He. apply Hc'. rewrite He. in_list.
  - rewrite Hc'. apply Z.eqb_neq. intros He. by apply (lay_classes h Hl).
Qed.

End Kinds.

(** X12: on a well-formed type, [Indirect] returns the pointee of a
    pointer and the element type of an array, and fails its check on every
    other type. *)
Theorem Indirect_pointee (h : Header) (c : ctype) :
  HeaderOk h → TagLayout h →
  well_formed h c = true →
  Indirect h (flatten h c)
  = match pointee c with
    | Some c' => Ok (flatten h c')
    | None => Err CheckFailed
    end.
Proof.
  intros Hh Hl Hc. unfold Indirect.
  rewrite (IsClassPtr_flatten h Hh Hl c Hc).
  destruct c as [t|t c|t n c|t d c|t s]; cbn [mbind res_bind CHECK pointee];
    try done.
  - rewrite (IsTypeArray_flatten h Hh Hl _ Hc).
    cbn [mbind res_bind flatten drop]. by rewrite drop_0.
  - rewrite (IsTypeArray_flatten h Hh Hl _ Hc). cbn [mbind res_bind flatten].
    by rewrite drop_payload.
Qed.

(** X13: on a well-formed type, [HasEncode] holds exactly for the
    types whose tag is followed by a payload: arrays, functions, structs and
    unions. *)
Theorem HasEncode_payload (h : Header) (c : ctype) :
  HeaderOk h → TagLayout h →
  well_formed h c = true →
  HasEncode h (flatten h c) = Ok (has_payload c).
Proof.
  intros Hh Hl Hc. unfold HasEncode.
  rewrite (IsClassStruct_flatten h Hh Hl c Hc),
    (IsTypeArray_flatten h Hh Hl c Hc), (IsTypeFunc_flatten h Hh Hl c Hc).
  by destruct c.
Qed.

(** X14: on a well-formed type, [IsQualConst] tells
    whether the const bit is set in the leading tag, and for an array in the
    leading tag of its element type. *)
Theorem IsQualConst_logical_qualifier (h : Header) (c : ctype) :
  HeaderOk h → TagLayout h →
  well_formed h c = true →
  IsQualConst h (flatten h c)
  = Ok (negb (Z.land (qualifier_tag c) (T_QUAL_CONST h) =? 0)).
Proof.
  intros Hh Hl Hc. unfold IsQualConst, GetQualifier.
  rewrite (IsTypeArray_flatten h Hh Hl c Hc). cbn [mbind res_bind].
  assert (∀ t, Z.land (Z.land t (T_QUAL_CONST h)) (T_QUAL_CONST h)
               = Z.land t (T_QUAL_CONST h)) as Hidem.
  { intros t. by rewrite <- Z.land_assoc, Z.land_diag. }
  destruct c as [t|t c|t n c|t d c|t s]; cbn [flatten qualifier_tag leading_tag];
    try (cbn; by rewrite Hidem).
  rewrite drop_payload. destruct (flatten_cons h c) as [tail ->].
  cbn. by rewrite Hidem.
Qed.

(** ** Decay, pointee sizes and char arrays *)

(** X15: [ArrayToPtr] of a well-formed array is the pointer tag
    followed by the element type, and [Indirect] gives the same type for the
    array and for the pointer it decays to. *)
Theorem ArrayToPtr_decay (h : Header) (junk : nat → Z) (t n : Z) (e : ctype) :
  HeaderOk h →
  well_formed h (CArray t n e) = true →
  ∃ P, ArrayToPtr h junk (flatten h (CArray t n e)) = Ok P
       ∧ P = T_PTR h :: flatten h e
       ∧ Indirect h P = Indirect h (flatten h (CArray t n e)).
Proof.
  intros Hh Hc. cbn [well_formed] in Hc.
  apply andb_prop in Hc as [Ht%Z.eqb_eq He].
  exists (T_PTR h :: flatten h e). unfold ArrayToPtr. cbn [flatten].
  rewrite (IsTypeArray_array h Hh t _ Ht). cbn [mbind res_bind CHECK].
  rewrite drop_payload. split; [by apply PointerTo_flatten|].
  split; [done|].
  rewrite (Indirect_PTR h Hh). symmetry. by apply (Indirect_array h Hh).
Qed.

(** X16: [PSizeOf] is [SizeOf] after [Indirect], faults
    included. *)
Theorem PSizeOf_Indirect (abi : Abi) (h : Header) (st : Store) (T : list Z) :
  PSizeOf abi h st T = Indirect h T ≫= SizeOf abi h st.
Proof.
  unfold PSizeOf, Indirect.
  destruct (IsClassPtr h T) as [p|]; [|done]. cbn [mbind res_bind].
  destruct (CHECK p); [|done]. cbn [mbind res_bind].
  destruct (IsTypeArray h T) as [[]|]; done.
Qed.

(** X17: [PSizeOf (PointerTo (T))] is [SizeOf (T)] for every
    well-formed [T]. *)
Theorem PSizeOf_PointerTo (abi : Abi) (h : Header) (st : Store)
    (junk : nat → Z) (c : ctype) :
  HeaderOk h →
  well_formed h c = true →
  ∃ P, PointerTo h junk (flatten h c) = Ok P
       ∧ PSizeOf abi h st P = SizeOf abi h st (flatten h c).
Proof.
  intros Hh Hc. exists (T_PTR h :: flatten h c).
  split; [by apply PointerTo_flatten|].
  unfold PSizeOf, IsClassPtr, IsTypeArray.
  cbn [rd lookup list_lookup mbind res_bind].
  rewrite (ok_PTR_class h Hh), Z.eqb_refl. cbn [CHECK mbind res_bind].
  rewrite (ok_PTR_type h Hh).
  destruct (Z.eqb_spec (T_TYPE_PTR h) (T_TYPE_ARRAY h)) as [He|_];
    [by apply (TYPE_PTR_ne_ARRAY h Hh) in He|].
  cbn [drop]. by rewrite drop_0.
Qed.

Section CharArrays.
Context (abi : Abi) (h : Header) (Hh : HeaderOk h).

Lemma count_reads_back Len :
  0 ≤ Len < 2 ^ UINT_BITS abi →
  Len < 2 ^ (ULONG_BITS abi - 1) →
  to_long abi (to_unsigned abi Len) = Len.
Proof.
  intros HL Hl. unfold to_long, to_unsigned, swrap, wrap.
  rewrite (Z.mod_small Len) by lia.
  assert (0 < ULONG_BITS abi).
  { destruct (decide (0 < ULONG_BITS abi)); [done|].
    rewrite Z.pow_neg_r in Hl by lia. lia. }
  assert (2 ^ ULONG_BITS abi = 2 * 2 ^ (ULONG_BITS abi - 1)) as Hpow.
  { rewrite <- Z.pow_succ_r by lia. f_equal. lia. }
  rewrite Z.mod_small by lia. lia.
Qed.

End CharArrays.

(** X18: the char array built for a length that fits the
    slots and a positive [long] has [DECODE_SIZE + 2] tokens, reads back that
    length and the default char as element type, and its size is the length
    times [SIZEOF_CHAR]. *)
Theorem GetCharArrayType_count_size (abi : Abi) (h : Header) (st : Store)
    (SignedChars : bool) (junk : nat → Z) (Len : Z) :
  HeaderOk h →
  0 ≤ Len < 2 ^ UINT_BITS abi →
  Len < 2 ^ (ULONG_BITS abi - 1) →
  Len < 2 ^ (15 * Z.of_nat (DECODE_SIZE h)) →
  ∃ T, GetCharArrayType abi h SignedChars junk Len = Ok T
       ∧ TypeLen h T = Ok (DECODE_SIZE h + 2)%nat
       ∧ GetElementCount abi h T = Ok Len
       ∧ GetElementType h T = Ok [GetDefaultChar h SignedChars; T_END h]
       ∧ SizeOf abi h st T = Ok (to_unsigned abi (Len * SIZEOF_CHAR h)).
Proof.
  intros Hh HL Hl Hn.
  assert (0 < ULONG_BITS abi).
  { destruct (decide (0 < ULONG_BITS abi)); [done|].
    rewrite Z.pow_neg_r in Hl by lia. lia. }
  assert (2 ^ (ULONG_BITS abi - 1) ≤ 2 ^ ULONG_BITS abi)
    by (apply Z.pow_le_mono_r; lia).
  assert (to_ulong abi Len = Len) as Hul
    by (unfold to_ulong, wrap; apply Z.mod_small; lia).
  eexists. split; [apply GetCharArrayType_Ok|]. rewrite Hul.
  set (c := GetDefaultChar h SignedChars).
  assert (UnqualifiedType h (T_ARRAY h) = T_ARRAY h) as Harr
    by (apply (tag_unqual h Hh); in_list).
  assert (GetElementCount abi h
            (T_ARRAY h :: chunks (DECODE_SIZE h) Len ++ [c; T_END h]) = Ok Len)
    as Hcount.
  { unfold GetElementCount. rewrite (IsTypeArray_array h Hh _ _ Harr).
    cbn [mbind res_bind CHECK drop]. rewrite drop_0.
    rewrite Decode_chunks by lia. cbn [mbind res_bind].
    by rewrite count_reads_back. }
  split; [|split; [done|split]].
  - assert (c ≠ T_END h) as Hc.
    { intros He. apply (ok_tags_END h Hh). rewrite <- He.
      unfold c. destruct SignedChars; in_list. }
    change (T_ARRAY h :: chunks (DECODE_SIZE h) Len ++ [c; T_END h])
      with ((T_ARRAY h :: chunks (DECODE_SIZE h) Len) ++ [c; T_END h]).
    rewrite TypeLen_app.
    + cbn [TypeLen]. destruct (Z.eqb_spec c (T_END h)); [done|].
      rewrite Z.eqb_refl. cbn. rewrite length_chunks. f_equal. lia.
    + constructor; [|by apply chunks_ne_END].
      intros He. apply (ok_tags_END h Hh). rewrite <- He. in_list.
  - unfold GetElementType. rewrite (IsTypeArray_array h Hh _ _ Harr).
    cbn [mbind res_bind CHECK]. by rewrite drop_payload.
  - rewrite (SizeOf_array abi h st Hh _ _ Harr), Hcount.
    cbn [mbind res_bind]. destruct (Z.ltb_spec Len 0); [lia|].
    rewrite drop_payload.
    rewrite (SizeOf_const h Hh abi st c [T_END h] (SIZEOF_CHAR h)); [done|].
    unfold c. destruct SignedChars; cbn [GetDefaultChar].
    + rewrite (tag_unqual h Hh) by in_list. in_list.
    + rewrite (tag_unqual h Hh) by in_list. in_list.
Qed.

(** X19: where [long] is wider than [unsigned], the count of an
    array is never negative and [SizeOf] always returns the product of count
    and element size. *)
Theorem SizeOf_wide_long (abi : Abi) (h : Header) (st : Store)
    (t : Z) (T1 : list Z) (n s : Z) :
  HeaderOk h →
  0 ≤ UINT_BITS abi < ULONG_BITS abi →
  UnqualifiedType h t = T_ARRAY h →
  GetElementCount abi h (t :: T1) = Ok n →
  SizeOf abi h st (drop (DECODE_SIZE h + 1) (t :: T1)) = Ok s →
  0 ≤ n ∧ SizeOf abi h st (t :: T1) = Ok (to_unsigned abi (n * s)).
Proof.
  intros Hh Hw Ht Hn Hs.
  pose proof (GetElementCount_wide_long abi h _ n Hw Hn) as Hpos.
  split; [done|]. rewrite (SizeOf_array abi h st Hh t T1 Ht), Hn.
  cbn [mbind res_bind]. destruct (Z.ltb_spec n 0); [lia|].
  by rewrite Hs.
Qed.

(** ** The value of a character *)

Lemma lor_lnot_255 C : Z.lor C (Z.lnot 0xFF) = C `mod` 256 - 256.
Proof.
  rewrite <- (Z.lnot_involutive C) at 1. rewrite <- Z.lnot_land.
  change 0xFF with (Z.ones 8). rewrite Z.land_ones by lia.
  unfold Z.lnot at 1. change (2 ^ 8) with 256.
  assert (Z.lnot C `mod` 256 = 255 - C `mod` 256) as ->; [|lia].
  unfold Z.lnot. symmetry.
  pose proof (Z.mod_pos_bound C 256 ltac:(lia)).
  apply (Z.mod_unique_pos _ _ (- (C / 256) - 1)); [lia|].
  pose proof (Z.div_mod C 256 ltac:(lia)). lia.
Qed.

Lemma land_128 C : Z.land C 0x80 ≠ 0 ↔ 128 ≤ C `mod` 256.
Proof.
  assert (Z.land C 0x80 = if Z.testbit C 7 then 128 else 0) as ->.
  { apply Z.bits_inj'. intros i Hi. rewrite Z.land_spec.
    change 0x80 with (2 ^ 7). rewrite Z.pow2_bits_eqb by lia.
    destruct (Z.eqb_spec 7 i) as [<-|Hne].
    - rewrite andb_true_r. destruct (Z.testbit C 7); [done|].
      by rewrite Z.bits_0.
    - rewrite andb_false_r. destruct (Z.testbit C 7).
      + change 128 with (2 ^ 7). rewrite Z.pow2_bits_eqb by lia.
        symmetry. by apply Z.eqb_neq.
      + by rewrite Z.bits_0. }
  change 256 with (128 * 2). rewrite Z.rem_mul_r by lia.
  pose proof (Z.mod_pos_bound C 128 ltac:(lia)).
  destruct (Z.testbit C 7) eqn:Hb.
  - apply Z.testbit_true in Hb; [|lia]. change (2 ^ 7) with 128 in Hb.
    rewrite Hb. split; [lia|done].
  - apply Z.testbit_false in Hb; [|lia]. change (2 ^ 7) with 128 in Hb.
    rewrite Hb. split; [done|lia].
Qed.

(** X20: [SignExtendChar] returns the low byte of its argument
    read as a char: in [-128, 127] with signed chars, in [0, 255] with
    unsigned chars; applying it twice changes nothing. *)
Theorem SignExtendChar_value (SignedChars : bool) (C : Z) :
  SignExtendChar SignedChars C
  = (if SignedChars && (128 <=? C `mod` 256)
     then C `mod` 256 - 256 else C `mod` 256) ∧
  (if SignedChars then -128 ≤ SignExtendChar SignedChars C ≤ 127
   else 0 ≤ SignExtendChar SignedChars C ≤ 255) ∧
  SignExtendChar SignedChars (SignExtendChar SignedChars C)
  = SignExtendChar SignedChars C.
Proof.
  assert (∀ x, SignExtendChar SignedChars x
               = (if SignedChars && (128 <=? x `mod` 256)
                  then x `mod` 256 - 256 else x `mod` 256)) as Hval.
  { intros x. unfold SignExtendChar.
    replace (negb (Z.land x 128 =? 0)) with (128 <=? x `mod` 256).
    - destruct (SignedChars && (128 <=? x `mod` 256)).
      + apply lor_lnot_255.
      + change 0xFF with (Z.ones 8). by rewrite Z.land_ones by lia.
    - pose proof (land_128 x) as Hb.
      destruct (Z.leb_spec 128 (x `mod` 256)), (Z.eqb_spec (Z.land x 128) 0);
        simpl; try done; lia. }
  pose proof (Z.mod_pos_bound C 256 ltac:(lia)) as HC.
  split; [apply Hval|]. rewrite !Hval. split.
  - destruct SignedChars; simpl; [|lia].
    destruct (Z.leb_spec 128 (C `mod` 256)); lia.
  - destruct SignedChars; simpl.
    + destruct (Z.leb_spec 128 (C `mod` 256)) as [Hge|Hlt].
      * replace ((C `mod` 256 - 256) `mod` 256) with (C `mod` 256).
        { destruct (Z.leb_spec 128 (C `mod` 256)); [done|lia]. }
        apply (Z.mod_unique_pos _ _ (-1)); lia.
      * rewrite Z.mod_mod by lia.
        destruct (Z.leb_spec 128 (C `mod` 256)); [lia|done].
    + by rewrite Z.mod_mod by lia.
Qed.

(** ** Sizes of well-formed types *)

Section SizesMore.
Context (abi : Abi) (h : Header) (st : Store) (Hh : HeaderOk h).

Lemma Decode_loop_total n Ty v :
  (n ≤ length Ty)%nat → ∃ r, Decode_loop abi n Ty v = Ok r.
Proof.
  revert v. induction n as [|n IH]; intros v Hn; [by exists v|].
  cbn [Decode_loop]. destruct (lookup_lt_is_Some_2 Ty n ltac:(lia)) as [t Ht].
  rewrite (rd_Some _ _ _ Ht). cbn [mbind res_bind]. apply IH. lia.
Qed.

Lemma base_tag_case tag :
  tag ∈ base_tags h → ∃ size, (tag, SzConst size) ∈ SizeOf_cases h.
Proof.
  unfold base_tags. intros Hin.
  repeat (apply elem_of_cons in Hin as [->|Hin]);
    [eexists; in_list..|].
  by apply elem_of_nil in Hin.
Qed.

Lemma SizeOf_struct t T1 :
  UnqualifiedType h t = T_STRUCT h ∨ UnqualifiedType h t = T_UNION h →
  SizeOf abi h st (t :: T1)
  = (p ← DecodePtr abi h T1; Entry ← deref (syms st) p; Ok (Size Entry)).
Proof.
  intros Ht. simp SizeOf. destruct Ht as [-> | ->].
  - by rewrite (switch_In _ SzStruct _ (ok_SizeOf_labels h Hh)) by in_list.
  - by rewrite (switch_In _ SzStruct _ (ok_SizeOf_labels h Hh)) by in_list.
Qed.

Lemma SizeOf_unknown t T1 :
  UnqualifiedType h t ∉ (SizeOf_cases h).*1 →
  SizeOf abi h st (t :: T1) = Err (Internal "Unknown type in SizeOf" t).
Proof. intros Hnin. simp SizeOf. by rewrite (switch_None _ _ Hnin). Qed.

End SizesMore.

(** X21: [SizeOf] returns a size, neither an internal error nor
    an access outside the string, for every well-formed type whose struct
    handles name symbol table entries. *)
Theorem SizeOf_well_formed (abi : Abi) (h : Header) (st : Store) (c : ctype) :
  HeaderOk h →
  well_formed h c = true →
  handles_ok abi h st c = true →
  ∃ s, SizeOf abi h st (flatten h c) = Ok s.
Proof.
  intros Hh. induction c as [t|t c IH|t n c IH|t d c IH|t s];
    cbn [well_formed handles_ok flatten].
  - intros Hin%(base_tag_In h) _.
    destruct (base_tag_case h _ Hin) as [size Hsize].
    exists size. by apply SizeOf_const.
  - intros [Ht%Z.eqb_eq _]%andb_prop _. exists (SIZEOF_PTR h).
    apply SizeOf_const; [done|]. rewrite Ht. in_list.
  - intros [Ht%Z.eqb_eq Hc]%andb_prop Hs.
    rewrite (SizeOf_array abi h st Hh t _ Ht). unfold GetElementCount.
    rewrite (IsTypeArray_array h Hh t _ Ht). cbn [mbind res_bind CHECK drop].
    rewrite drop_0. unfold Decode.
    destruct (Decode_loop_total abi (DECODE_SIZE h)
                (chunks (DECODE_SIZE h) n ++ flatten h c) 0) as [v ->].
    { rewrite length_app, length_chunks. lia. }
    cbn [mbind res_bind]. destruct (_ <? 0); [by exists 0|].
    rewrite drop_payload. destruct (IH Hc Hs) as [s ->]. by eexists.
  - intros [Ht%Z.eqb_eq _]%andb_prop _. exists (SIZEOF_PTR h).
    apply SizeOf_const; [done|]. rewrite Ht. in_list.
  - intros Ht Hs. rewrite (SizeOf_struct abi h st Hh).
    2:{ apply orb_prop in Ht as [Ht|Ht]; apply Z.eqb_eq in Ht; auto. }
    unfold DecodePtr in *. rewrite Decode_app by apply length_chunks.
    destruct (Decode abi h (chunks (DECODE_SIZE h) s)) as [p|]; [|done].
    cbn [fmap res_fmap mbind res_bind] in *.
    apply bool_decide_eq_true_1 in Hs as [e He].
    unfold deref. rewrite He. by eexists.
Qed.

(** X22: [SizeOf] runs off an empty buffer, and stops with the
    internal error naming the token for a tag that is none of its cases,
    also when that tag is the element type of an array. *)
Theorem SizeOf_unknown_tag (abi : Abi) (h : Header) (st : Store)
    (t u n : Z) (T1 rest : list Z) :
  HeaderOk h →
  UnqualifiedType h u ∉ (SizeOf_cases h).*1 →
  SizeOf abi h st [] = Err OutOfBounds ∧
  SizeOf abi h st (u :: rest) = Err (Internal "Unknown type in SizeOf" u) ∧
  (UnqualifiedType h t = T_ARRAY h →
   GetElementCount abi h (t :: T1) = Ok n → 0 ≤ n →
   drop (DECODE_SIZE h + 1) (t :: T1) = u :: rest →
   SizeOf abi h st (t :: T1) = Err (Internal "Unknown type in SizeOf" u)).
Proof.
  intros Hh Hu. split; [by simp SizeOf|].
  split; [by apply SizeOf_unknown|].
  intros Ht Hn Hpos Hdrop. rewrite (SizeOf_array abi h st Hh t T1 Ht), Hn.
  cbn [mbind res_bind]. destruct (Z.ltb_spec n 0); [lia|].
  by rewrite Hdrop, SizeOf_unknown.
Qed.

(** ** Printing well-formed types *)

Section PrintingMore.
Context (abi : Abi) (h : Header) (st : Store).
Context (Hh : HeaderOk h) (Hl : TagLayout h).

Lemma PrintTypeComp_type T Mask Name :
  Z.land Mask (T_MASK_TYPE h) = 0 →
  Z.land (PrintTypeComp T Mask Name).2 (T_MASK_TYPE h)
  = Z.land T (T_MASK_TYPE h).
Proof.
  intros Hm. unfold PrintTypeComp. destruct (_ =? _); [|done].
  cbn [snd]. unfold to_type, wrap, TYPE_BITS.
  rewrite <- Z.land_ones by lia. rewrite <- !Z.land_assoc.
  rewrite (Z.land_comm (Z.ones 16)), Z.land_ones by lia.
  pose proof (lay_MASK_TYPE h Hl) as Hr. unfold TYPE_BITS in Hr.
  rewrite (Z.mod_small (T_MASK_TYPE h)) by lia.
  by rewrite (land_lnot_disjoint _ _ Hm).
Qed.

Lemma PrintType_prefix_type T :
  Z.land (PrintType_prefix h T).2 (T_MASK_TYPE h) = Z.land T (T_MASK_TYPE h).
Proof.
  pose proof (lay_strip h Hl) as Hs.
  apply Forall_cons in Hs as [Hc Hs]. apply Forall_cons in Hs as [Hv Hs].
  apply Forall_cons in Hs as [Hsg Hs]. apply Forall_cons in Hs as [Hu _].
  unfold PrintType_prefix.
  pose proof (PrintTypeComp_type T _ "const" Hc) as H1.
  destruct (PrintTypeComp T (T_QUAL_CONST h) "const") as [o1 T1].
  pose proof (PrintTypeComp_type T1 _ "volatile" Hv) as H2.
  destruct (PrintTypeComp T1 (T_QUAL_VOLATILE h) "volatile") as [o2 T2].
  pose proof (PrintTypeComp_type T2 _ "signed" Hsg) as H3.
  destruct (negb _ && negb _).
  - destruct (PrintTypeComp T2 (T_SIGN_SIGNED h) "signed") as [o3 T3].
    pose proof (PrintTypeComp_type T3 _ "unsigned" Hu) as H4.
    destruct (PrintTypeComp T3 (T_SIGN_UNSIGNED h) "unsigned") as [o4 T4].
    cbn [snd] in *. congruence.
  - pose proof (PrintTypeComp_type T2 _ "unsigned" Hu) as H4.
    destruct (PrintTypeComp T2 (T_SIGN_UNSIGNED h) "unsigned") as [o4 T4].
    cbn [snd] in *. congruence.
Qed.

Lemma PrintType_END T : PrintType abi h st (T_END h :: T) = Ok ""%string.
Proof. simp PrintType. by rewrite Z.eqb_refl. Qed.

Lemma PrintType_step T0 Ty :
  T0 ≠ T_END h →
  PrintType abi h st (T0 :: Ty) =
    match switch (Z.land T0 (T_MASK_TYPE h)) (PrintType_cases h) with
    | Some (PrWord w) =>
        rest ← PrintType abi h st Ty;
        Ok ((PrintType_prefix h T0).1 +:+ w +:+ rest)
    | Some (PrStruct w) =>
        p ← DecodePtr abi h Ty;
        Entry ← deref (syms st) p;
        rest ← PrintType abi h st (drop (DECODE_SIZE h) Ty);
        Ok ((PrintType_prefix h T0).1 +:+ w +:+ Name Entry +:+ rest)
    | Some PrArray =>
        elem ← PrintType abi h st (drop (DECODE_SIZE h) Ty);
        Size ← Decode abi h Ty;
        Ok ((PrintType_prefix h T0).1 +:+ elem +:+
            (if Size =? 0 then "[]" else "[" +:+ pretty Size +:+ "]"))
    | Some PrPtr =>
        inner ← PrintType abi h st Ty;
        Ok ((PrintType_prefix h T0).1 +:+ inner +:+ "*")
    | Some PrFunc =>
        rest ← PrintType abi h st (drop (DECODE_SIZE h) Ty);
        Ok ((PrintType_prefix h T0).1 +:+ "function returning " +:+ rest)
    | None =>
        rest ← PrintType abi h st Ty;
        Ok ((PrintType_prefix h T0).1 +:+ "unknown type: "
            +:+ hex4 (PrintType_prefix h T0).2 +:+ rest)
    end.
Proof.
  intros Hne. simp PrintType.
  destruct (Z.eqb_spec T0 (T_END h)); [done|]. cbv zeta.
  by rewrite PrintType_prefix_type.
Qed.

Lemma switch_Some_In {A} x (a : A) cases :
  switch x cases = Some a → (x, a) ∈ cases.
Proof.
  induction cases as [|[l b] cases IH]; simpl; [done|].
  destruct (Z.eqb_spec x l) as [->|Hne].
  - intros [= ->]. apply list_elem_of_here.
  - intros Hs. apply list_elem_of_further. by apply IH.
Qed.

Lemma leading_tag_ne_END c :
  well_formed h c = true → leading_tag c ≠ T_END h.
Proof.
  destruct c as [t|t c|t n c|t d c|t s]; cbn [well_formed leading_tag].
  - intros (tag & Hin & Ht)%existsb_exists.
    apply (is_tag_ne_END h Hh t tag); [|done].
    apply base_tags_labels. by apply list_elem_of_In.
  - intros [Ht _]%andb_prop.
    apply (is_tag_ne_END h Hh t (T_PTR h)); [in_list|done].
  - intros [Ht _]%andb_prop.
    apply (is_tag_ne_END h Hh t (T_ARRAY h)); [in_list|done].
  - intros [Ht _]%andb_prop.
    apply (is_tag_ne_END h Hh t (T_FUNC h)); [in_list|done].
  - intros [Ht|Ht]%orb_prop.
    + apply (is_tag_ne_END h Hh t (T_STRUCT h)); [in_list|done].
    + apply (is_tag_ne_END h Hh t (T_UNION h)); [in_list|done].
Qed.

End PrintingMore.

(** X23: [PrintType] prints every well-formed type whose
    struct handles name symbol table entries without leaving the string. *)
Theorem PrintType_well_formed (abi : Abi) (h : Header) (st : Store)
    (c : ctype) :
  HeaderOk h → TagLayout h →
  well_formed h c = true →
  handles_ok abi h st c = true →
  ∃ s, PrintType abi h st (flatten h c) = Ok s.
Proof.
  intros Hh Hl. induction c as [t|t c IH|t n c IH|t d c IH|t s];
    intros Hc Hs; pose proof (wf_kind h Hh Hl _ Hc) as Hk;
    pose proof (leading_tag_ne_END h Hh _ Hc) as Hne;
    cbn [well_formed handles_ok flatten leading_tag] in *;
    rewrite (PrintType_step abi h st Hl) by done.
  - destruct Hk as [Ht _].
    destruct (switch _ _) as [k|] eqn:Hsw.
    + apply switch_Some_In in Hsw. unfold PrintType_cases in Hsw.
      repeat (apply elem_of_cons in Hsw as [Hsw|Hsw];
              [injection Hsw as Hx ->;
               first [ by (rewrite PrintType_END; eexists)
                     | exfalso; apply Ht; rewrite Hx; in_list ]|]).
      by apply elem_of_nil in Hsw.
    + rewrite PrintType_END. by eexists.
  - destruct Hk as [-> _]. apply andb_prop in Hc as [_ Hc].
    rewrite (switch_In _ PrPtr _ (ok_PrintType_labels h Hh)) by in_list.
    destruct (IH Hc Hs) as [s ->]. by eexists.
  - destruct Hk as [-> _]. apply andb_prop in Hc as [_ Hc].
    rewrite (switch_In _ PrArray _ (ok_PrintType_labels h Hh)) by in_list.
    rewrite drop_app_length' by (symmetry; apply length_chunks).
    destruct (IH Hc Hs) as [s ->]. cbn [mbind res_bind]. unfold Decode.
    destruct (Decode_loop_total abi (DECODE_SIZE h)
                (chunks (DECODE_SIZE h) n ++ flatten h c) 0) as [v ->].
    { rewrite length_app, length_chunks. lia. }
    by eexists.
  - destruct Hk as [-> _]. apply andb_prop in Hc as [_ Hc].
    rewrite (switch_In _ PrFunc _ (ok_PrintType_labels h Hh)) by in_list.
    rewrite drop_app_length' by (symmetry; apply length_chunks).
    destruct (IH Hc Hs) as [s ->]. by eexists.
  - destruct Hk as [Ht _].
    assert (∃ w, switch (Z.land t (T_MASK_TYPE h)) (PrintType_cases h)
                 = Some (PrStruct w)) as [w ->].
    { apply elem_of_cons in Ht as [->|Ht].
      - eexists. by rewrite (switch_In _ (PrStruct "struct ") _
                               (ok_PrintType_labels h Hh)) by in_list.
      - apply elem_of_cons in Ht as [->|Ht]; [|by apply elem_of_nil in Ht].
        eexists. by rewrite (switch_In _ (PrStruct "union ") _
                               (ok_PrintType_labels h Hh)) by in_list. }
    unfold DecodePtr in *. rewrite Decode_app by apply length_chunks.
    destruct (Decode abi h (chunks (DECODE_SIZE h) s)) as [p|]; [|done].
    cbn [fmap res_fmap mbind res_bind] in *.
    apply bool_decide_eq_true_1 in Hs as [e He].
    unfold deref. rewrite He. cbn [mbind res_bind].
    rewrite drop_app_length' by (symmetry; apply length_chunks).
    rewrite PrintType_END. by eexists.
Qed.

(** X24: [PointerTo (T)] prints as [T] followed by a star, for
    every well-formed [T]. *)
Theorem PrintType_PointerTo (abi : Abi) (h : Header) (st : Store)
    (junk : nat → Z) (c : ctype) :
  HeaderOk h → TagLayout h →
  well_formed h c = true →
  ∃ P, PointerTo h junk (flatten h c) = Ok P
       ∧ PrintType abi h st P
         = (λ s, s +:+ "*") <$> PrintType abi h st (flatten h c).
Proof.
  intros Hh Hl Hc. exists (T_PTR h :: flatten h c).
  split; [by apply PointerTo_flatten|].
  rewrite (PrintType_step abi h st Hl) by (by apply T_PTR_ne_END).
  rewrite (ok_PTR_type h Hh).
  rewrite (switch_In _ PrPtr _ (ok_PrintType_labels h Hh)) by in_list.
  rewrite (lay_PTR_plain h Hl). by destruct (PrintType abi h st (flatten h c)).
Qed.

(** ** The raw printer *)

Lemma length_string_app (a b : string) :
  String.length (a +:+ b) = (String.length a + String.length b)%nat.
Proof. induction a as [|x a IH]; [done|]. simpl. f_equal. apply IH. Qed.

Lemma length_hex_digit d : 0 ≤ d < 16 → String.length (hex_digit d) = 1%nat.
Proof.
  intros Hd. unfold hex_digit.
  assert (Z.to_nat d < 16)%nat as Hk by lia.
  generalize dependent (Z.to_nat d). intros k Hk.
  do 16 (destruct k as [|k]; [done|]). lia.
Qed.

Lemma length_hex4 x : String.length (hex4 x) = 4%nat.
Proof.
  unfold hex4. rewrite !length_string_app.
  rewrite !length_hex_digit by (apply Z.mod_pos_bound; lia). done.
Qed.

Lemma hex_digit_get d :
  0 ≤ d < 16 →
  ∃ c, hex_digit d = String c EmptyString
       ∧ String.get (Z.to_nat d) "0123456789ABCDEF" = Some c.
Proof.
  intros Hd. unfold hex_digit.
  assert (Z.to_nat d < 16)%nat as Hk by lia.
  generalize dependent (Z.to_nat d). intros k Hk.
  do 16 (destruct k as [|k]; [by eexists|]). lia.
Qed.

Lemma hex4_digits t :
  0 ≤ t < 2 ^ TYPE_BITS →
  ∃ c3 c2 c1 c0,
    hex4 t = String c3 (String c2 (String c1 (String c0 EmptyString)))
    ∧ String.get (Z.to_nat (t / 4096)) "0123456789ABCDEF" = Some c3
    ∧ String.get (Z.to_nat ((t / 256) `mod` 16)) "0123456789ABCDEF" = Some c2
    ∧ String.get (Z.to_nat ((t / 16) `mod` 16)) "0123456789ABCDEF" = Some c1
    ∧ String.get (Z.to_nat (t `mod` 16)) "0123456789ABCDEF" = Some c0.
Proof.
  unfold TYPE_BITS. intros Ht. unfold hex4.
  assert (0 ≤ t / 4096 < 16) as H3.
  { split; [apply Z.div_pos; lia|apply Z.div_lt_upper_bound; lia]. }
  rewrite (Z.mod_small (t / 4096)) by done.
  destruct (hex_digit_get (t / 4096) H3) as (c3 & -> & ?).
  destruct (hex_digit_get ((t / 256) `mod` 16)) as (c2 & -> & ?);
    [apply Z.mod_pos_bound; lia|].
  destruct (hex_digit_get ((t / 16) `mod` 16)) as (c1 & -> & ?);
    [apply Z.mod_pos_bound; lia|].
  destruct (hex_digit_get (t `mod` 16)) as (c0 & -> & ?);
    [apply Z.mod_pos_bound; lia|].
  by exists c3, c2, c1, c0.
Qed.

(** X25: for a buffer of [n] tokens in front of the sentinel, [PrintRawType]
    writes [5 * n + 1] characters; the last one is a newline, and the five
    characters of the token at index [i], a 16 bit value [t], are the four
    digits of [t] in base 16, the most significant first and with the
    letters in upper case, and a space.  On a buffer without sentinel it
    runs off the end. *)
Theorem PrintRawType_dump (h : Header) (T : list Z) :
  (∀ n, TypeLen h T = Ok n →
     ∃ s, PrintRawType h T = Ok s
       ∧ String.length s = (5 * n + 1)%nat
       ∧ String.get (5 * n) s = Some (Ascii.ascii_of_nat 10)
       ∧ ∀ i t, (i < n)%nat → T !! i = Some t → 0 ≤ t < 2 ^ TYPE_BITS →
           String.get (5 * i) s
           = String.get (Z.to_nat (t / 4096)) "0123456789ABCDEF"
           ∧ String.get (5 * i + 1) s
             = String.get (Z.to_nat ((t / 256) `mod` 16)) "0123456789ABCDEF"
           ∧ String.get (5 * i + 2) s
             = String.get (Z.to_nat ((t / 16) `mod` 16)) "0123456789ABCDEF"
           ∧ String.get (5 * i + 3) s
             = String.get (Z.to_nat (t `mod` 16)) "0123456789ABCDEF"
           ∧ String.get (5 * i + 4) s = Some " "%char) ∧
  (T_END h ∉ T → PrintRawType h T = Err OutOfBounds).
Proof.
  split.
  - induction T as [|t T IH]; intros n; cbn [TypeLen PrintRawType]; [done|].
    destruct (Z.eqb_spec t (T_END h)).
    + intros [= <-]. eexists. split; [done|]. split; [done|].
      split; [done|]. intros i u Hi. lia.
    + destruct (TypeLen h T) as [m|]; [|done]. intros Hn.
      assert (n = S m) as -> by (cbn in Hn; congruence). clear Hn.
      destruct (IH m eq_refl) as (s & -> & Hs & Hnl & Hch).
      exists (hex4 t +:+ " " +:+ s). split; [done|]. split.
      { rewrite !length_string_app, length_hex4, Hs. cbn. lia. }
      assert (∀ k a b c d e r,
                String.get (5 * S k)
                  (String a (String b (String c (String d (String e r)))))
                = String.get (5 * k) r) as Hskip.
      { intros k a b c d e r.
        by replace (5 * S k)%nat with (S (S (S (S (S (5 * k)))))) by lia. }
      assert (∀ k j a b c d e r,
                String.get (5 * S k + j)
                  (String a (String b (String c (String d (String e r)))))
                = String.get (5 * k + j) r) as Hskip'.
      { intros k j a b c d e r.
        by replace (5 * S k + j)%nat
          with (S (S (S (S (S (5 * k + j)))))) by lia. }
      split.
      { revert Hnl.
        pose proof (length_hex4 t) as Hl.
        destruct (hex4 t) as [|a [|b [|c [|d [|]]]]]; try done.
        intros Hnl. cbv [String.append]. by rewrite Hskip. }
      intros i u Hi Hu Hr. destruct i as [|i].
      * injection Hu as <-.
        destruct (hex4_digits t Hr) as (c3 & c2 & c1 & c0 & -> & -> & -> & -> & ->).
        done.
      * cbn [lookup list_lookup] in Hu.
        destruct (Hch i u ltac:(lia) Hu Hr) as (H0 & H1 & H2 & H3 & H4).
        pose proof (length_hex4 t) as Hl.
        destruct (hex4 t) as [|a [|b [|c [|d [|]]]]]; try done.
        cbv [String.append]. by rewrite Hskip, !Hskip'.
  - induction T as [|t T IH]; [done|]. rewrite not_elem_of_cons.
    intros [Hne Hnin]. cbn [PrintRawType].
    destruct (Z.eqb_spec t (T_END h)); [congruence|]. by rewrite IH.
Qed.

(** ** Operations on arrays only, attributes of functions *)

(** X26: [GetElementCount], [GetElementType] and
    [ArrayToPtr] fail their check on every well-formed type that is not an
    array. *)
Theorem array_operations_reject (abi : Abi) (h : Header) (junk : nat → Z)
    (c : ctype) :
  HeaderOk h → TagLayout h →
  well_formed h c = true →
  (∀ t n e, c ≠ CArray t n e) →
  GetElementCount abi h (flatten h c) = Err CheckFailed ∧
  GetElementType h (flatten h c) = Err CheckFailed ∧
  ArrayToPtr h junk (flatten h c) = Err CheckFailed.
Proof.
  intros Hh Hl Hc Hna. unfold GetElementCount, GetElementType, ArrayToPtr.
  rewrite (IsTypeArray_flatten h Hh Hl c Hc).
  destruct c as [t|t c|t n c|t d c|t s]; try done.
  by destruct (Hna t n c).
Qed.

(** X27: the descriptor, the return type
    and the variadic and fastcall attributes of a pointer to a function are
    those of the function. *)
Theorem function_attributes_through_pointer (abi : Abi) (h : Header)
    (st : Store) (FD_FASTCALL p : Z) (T1 : list Z) :
  HeaderOk h →
  UnqualifiedType h p = T_PTR h →
  GetFuncDesc abi h (p :: T_FUNC h :: T1) = GetFuncDesc abi h (T_FUNC h :: T1) ∧
  GetFuncReturn h (p :: T_FUNC h :: T1) = GetFuncReturn h (T_FUNC h :: T1) ∧
  IsVariadicFunc abi h st (p :: T_FUNC h :: T1)
  = IsVariadicFunc abi h st (T_FUNC h :: T1) ∧
  IsFastCallFunc abi h st FD_FASTCALL (p :: T_FUNC h :: T1)
  = IsFastCallFunc abi h st FD_FASTCALL (T_FUNC h :: T1).
Proof.
  intros Hh Hp.
  assert ((UnqualifiedType h (T_FUNC h) =? T_PTR h) = false) as Hf.
  { rewrite (tag_unqual h Hh (T_FUNC h)) by in_list.
    apply Z.eqb_neq. by apply T_FUNC_ne_PTR. }
  assert (GetFuncDesc abi h (p :: T_FUNC h :: T1)
          = GetFuncDesc abi h (T_FUNC h :: T1)) as Hd.
  { unfold GetFuncDesc. cbn [rd lookup list_lookup mbind res_bind].
    by rewrite Hp, Z.eqb_refl, Hf. }
  split; [done|]. split.
  - unfold GetFuncReturn. cbn [rd lookup list_lookup mbind res_bind].
    by rewrite Hp, Z.eqb_refl, Hf.
  - unfold IsVariadicFunc, IsFastCallFunc. by rewrite Hd.
Qed.

(** ** The further properties on the sample configuration *)

Lemma Encode_writes_slots_witness :
  (∃ Ty', Encode cc65 (replicate 6 0x1111) 10 = Ok Ty'
          ∧ length Ty' = 6%nat
          ∧ drop 5 Ty' = [0x1111]
          ∧ Forall (λ t, 0x8000 ≤ t < 0x10000) (take 5 Ty')) ∧
  Encode cc65 [1; 2] 10 = Err OutOfBounds.
Proof.
  destruct (Encode_writes_slots cc65 (replicate 6 0x1111) 10) as [Hfit _].
  destruct (Encode_writes_slots cc65 [1; 2] 10) as [_ Hshort].
  split; [apply Hfit | apply Hshort]; simpl; lia.
Defined.

Lemma Decode_Encode_truncates_witness :
  ∃ Ty', Encode cc65 (replicate 5 0) (2 ^ 40 + 7) = Ok Ty'
         ∧ Decode LP64 cc65 Ty' = Ok (2 ^ 40 + 7).
Proof.
  apply (Decode_Encode_truncates LP64 cc65 (replicate 5 0) (2 ^ 40 + 7));
    simpl; lia.
Defined.

Lemma Decode_reads_slots_witness :
  (∃ v, Decode ILP32 cc65 (drop 1 int10) = Ok v ∧ 0 ≤ v < 2 ^ 32
        ∧ Decode ILP32 cc65 (take 5 (drop 1 int10)) = Ok v) ∧
  Decode ILP32 cc65 [0x800A; 0x8000] = Err OutOfBounds.
Proof.
  destruct (Decode_reads_slots ILP32 cc65 (drop 1 int10)) as [Hfit _];
    [simpl; lia|].
  destruct (Decode_reads_slots ILP32 cc65 [0x800A; 0x8000]) as [_ Hshort];
    [simpl; lia|].
  split; [apply Hfit | apply Hshort]; simpl; lia.
Defined.

Lemma CopyEncode_Decode_witness :
  ∃ Target', CopyEncode cc65 (drop 1 int10) (replicate 6 0x1111) = Ok Target'
             ∧ Decode ILP32 cc65 Target' = Decode ILP32 cc65 (drop 1 int10)
             ∧ drop 5 Target' = [0x1111]
             ∧ length Target' = 6%nat.
Proof.
  apply (CopyEncode_Decode ILP32 cc65 (drop 1 int10) (replicate 6 0x1111));
    simpl; lia.
Defined.

Lemma TypeCpy_copies_string_witness :
  (∃ Dest', TypeCpy (replicate 10 7) int10 = Ok Dest'
            ∧ Dest' = int10 ++ [7; 7]
            ∧ TypeLen cc65 Dest' = Ok 7%nat) ∧
  TypeCpy (replicate 7 7) int10 = Err OutOfBounds.
Proof.
  destruct (TypeCpy_copies_string cc65 (replicate 10 7) int10 7 eq_refl eq_refl)
    as [Hfit _].
  destruct (TypeCpy_copies_string cc65 (replicate 7 7) int10 7 eq_refl eq_refl)
    as [_ Hshort].
  split; [apply Hfit | apply Hshort]; simpl; lia.
Defined.

Lemma TypeCat_appends_witness :
  (∃ Dest', TypeCat cc65 ([T_PTR cc65; 0] ++ replicate 8 7) int10 = Ok Dest'
            ∧ Dest' = T_PTR cc65 :: int10 ++ [7]
            ∧ TypeLen cc65 Dest' = Ok 8%nat) ∧
  TypeCat cc65 [T_PTR cc65; 0; 7; 7] int10 = Err OutOfBounds.
Proof.
  destruct (TypeCat_appends cc65 ([T_PTR cc65; 0] ++ replicate 8 7) int10 1 7
              eq_refl eq_refl eq_refl) as [Hfit _].
  destruct (TypeCat_appends cc65 [T_PTR cc65; 0; 7; 7] int10 1 7
              eq_refl eq_refl eq_refl) as [_ Hshort].
  split; [apply Hfit | apply Hshort]; simpl; lia.
Defined.

Lemma TypeDup_copy_witness :
  ∃ D, TypeDup cc65 (λ _, 0x5A5A) (int10 ++ [1; 2; 3]) = Ok D
       ∧ D = int10
       ∧ length D = 8%nat
       ∧ TypeLen cc65 D = Ok 7%nat.
Proof.
  apply (TypeDup_copy cc65 (λ _, 0x5A5A) (int10 ++ [1; 2; 3]) 7). reflexivity.
Defined.

Lemma GetFuncDesc_function_witness :
  GetFuncDesc ILP32 cc65 (flatten cc65 variadic_int) = Ok 0x2000 ∧
  GetFuncDesc ILP32 cc65 (0x106D :: flatten cc65 variadic_int) = Ok 0x2000 ∧
  GetFuncReturn cc65 (flatten cc65 variadic_int)
  = Ok [T_INT cc65; T_END cc65] ∧
  GetFuncReturn cc65 (0x106D :: flatten cc65 variadic_int)
  = Ok [T_INT cc65; T_END cc65].
Proof.
  apply (GetFuncDesc_function ILP32 cc65 0x106D 0x2000 (CBase (T_INT cc65))
           cc65_ok eq_refl); simpl; lia.
Defined.

Lemma GetFuncDesc_rejects_witness :
  (GetFuncDesc ILP32 cc65 [T_INT cc65; T_END cc65] = Err CheckFailed
   ∧ GetFuncReturn cc65 [T_INT cc65; T_END cc65] = Err CheckFailed) ∧
  (GetFuncDesc ILP32 cc65 [T_PTR cc65; T_INT cc65; T_END cc65] = Err CheckFailed
   ∧ GetFuncReturn cc65 [T_PTR cc65; T_INT cc65; T_END cc65]
     = Err CheckFailed).
Proof.
  destruct (GetFuncDesc_rejects ILP32 cc65 (T_INT cc65) [T_END cc65])
    as [Hplain Hptr]; [discriminate|].
  split; [apply Hplain; discriminate | apply Hptr; reflexivity].
Defined.

Lemma TypeOf_function_variadic_witness :
  IsVariadicFunc ILP32 cc65 sample_store (flatten cc65 variadic_int) = Ok true ∧
  TypeOf ILP32 cc65 sample_store (flatten cc65 variadic_int) = Ok (0, []).
Proof.
  split; [reflexivity|].
  apply (TypeOf_function_variadic ILP32 cc65 sample_store
           (chunks 5 0x2000 ++ [T_INT cc65; T_END cc65]) true cc65_ok).
  reflexivity.
Defined.

Lemma function_attributes_through_pointer_witness :
  IsVariadicFunc ILP32 cc65 sample_store
    (T_PTR cc65 :: flatten cc65 variadic_int)
  = IsVariadicFunc ILP32 cc65 sample_store (flatten cc65 variadic_int).
Proof.
  apply (function_attributes_through_pointer ILP32 cc65 sample_store 0x0010
           (T_PTR cc65) (chunks 5 0x2000 ++ [T_INT cc65; T_END cc65]) cc65_ok).
  reflexivity.
Defined.

Lemma Indirect_pointee_witness :
  Indirect cc65 (flatten cc65 points3)
  = Ok (flatten cc65 (CStruct (T_STRUCT cc65) 0x1000)) ∧
  Indirect cc65 (flatten cc65 variadic_int) = Err CheckFailed.
Proof.
  split.
  - apply (Indirect_pointee cc65 points3 cc65_ok cc65_layout). reflexivity.
  - apply (Indirect_pointee cc65 variadic_int cc65_ok cc65_layout). reflexivity.
Defined.

Lemma HasEncode_payload_witness :
  HasEncode cc65 (flatten cc65 points3) = Ok true ∧
  HasEncode cc65 ptr_to_void = Ok false.
Proof.
  split.
  - apply (HasEncode_payload cc65 points3 cc65_ok cc65_layout). reflexivity.
  - apply (HasEncode_payload cc65 (CPtr (T_PTR cc65) (CBase (T_VOID cc65)))
             cc65_ok cc65_layout). reflexivity.
Defined.

Lemma IsQualConst_logical_qualifier_witness :
  IsQualConst cc65
    (flatten cc65
       (CArray (T_ARRAY cc65) 4 (CBase (Z.lor (T_UCHAR cc65) (T_QUAL_CONST cc65)))))
  = Ok true ∧
  IsQualConst cc65 ptr_to_const_char = Ok false.
Proof.
  split.
  - apply (IsQualConst_logical_qualifier cc65
             (CArray (T_ARRAY cc65) 4
                (CBase (Z.lor (T_UCHAR cc65) (T_QUAL_CONST cc65))))
             cc65_ok cc65_layout). reflexivity.
  - apply (IsQualConst_logical_qualifier cc65
             (CPtr (T_PTR cc65)
                (CBase (Z.lor (T_UCHAR cc65) (T_QUAL_CONST cc65))))
             cc65_ok cc65_layout). reflexivity.
Defined.

Lemma ArrayToPtr_decay_witness :
  ∃ P, ArrayToPtr cc65 (λ _, 0x5A5A) int10 = Ok P
       ∧ P = [T_PTR cc65; T_INT cc65; T_END cc65]
       ∧ Indirect cc65 P = Indirect cc65 int10.
Proof.
  apply (ArrayToPtr_decay cc65 (λ _, 0x5A5A) (T_ARRAY cc65) 10
           (CBase (T_INT cc65)) cc65_ok). reflexivity.
Defined.

Lemma PSizeOf_PointerTo_witness :
  ∃ P, PointerTo cc65 (λ _, 0x5A5A) (flatten cc65 points3) = Ok P
       ∧ PSizeOf ILP32 cc65 sample_store P
         = SizeOf ILP32 cc65 sample_store (flatten cc65 points3).
Proof.
  apply (PSizeOf_PointerTo ILP32 cc65 sample_store (λ _, 0x5A5A) points3
           cc65_ok). reflexivity.
Defined.

Lemma GetCharArrayType_count_size_witness :
  ∃ T, GetCharArrayType ILP32 cc65 true (λ _, 0x5A5A) 1000 = Ok T
       ∧ TypeLen cc65 T = Ok 7%nat
       ∧ GetElementCount ILP32 cc65 T = Ok 1000
       ∧ GetElementType cc65 T = Ok [T_SCHAR cc65; T_END cc65]
       ∧ SizeOf ILP32 cc65 no_store T = Ok 1000.
Proof.
  apply (GetCharArrayType_count_size ILP32 cc65 no_store true (λ _, 0x5A5A)
           1000 cc65_ok); simpl; lia.
Defined.

Lemma SizeOf_wide_long_witness :
  0 ≤ 4294967295 ∧
  SizeOf LP64 cc65 no_store
    (T_ARRAY cc65 :: chunks 5 (to_ulong LP64 (-1)) ++ [T_INT cc65; T_END cc65])
  = Ok 4294967294.
Proof.
  apply (SizeOf_wide_long LP64 cc65 no_store (T_ARRAY cc65)
           (chunks 5 (to_ulong LP64 (-1)) ++ [T_INT cc65; T_END cc65])
           4294967295 2 cc65_ok); [simpl; lia | reflexivity..].
Defined.

Lemma SizeOf_well_formed_witness :
  ∃ s, SizeOf ILP32 cc65 sample_store (flatten cc65 points3) = Ok s.
Proof.
  apply (SizeOf_well_formed ILP32 cc65 sample_store points3 cc65_ok);
    reflexivity.
Defined.

Lemma SizeOf_unknown_tag_witness :
  SizeOf ILP32 cc65 no_store [] = Err OutOfBounds ∧
  SizeOf ILP32 cc65 no_store [0x101F; 0]
  = Err (Internal "Unknown type in SizeOf" 0x101F) ∧
  SizeOf ILP32 cc65 no_store
    (T_ARRAY cc65 :: chunks 5 10 ++ [0x101F; 0])
  = Err (Internal "Unknown type in SizeOf" 0x101F).
Proof.
  destruct (SizeOf_unknown_tag ILP32 cc65 no_store (T_ARRAY cc65) 0x101F 10
              (chunks 5 10 ++ [0x101F; 0]) [0] cc65_ok)
    as (Hnil & Htag & Harr).
  { apply (bool_decide_unpack _). vm_compute. exact I. }
  split; [exact Hnil|]. split; [exact Htag|].
  apply Harr; [reflexivity | reflexivity | lia | reflexivity].
Defined.

Lemma PrintType_well_formed_witness :
  ∃ s, PrintType ILP32 cc65 sample_store (flatten cc65 points3) = Ok s.
Proof.
  apply (PrintType_well_formed ILP32 cc65 sample_store points3 cc65_ok
           cc65_layout); reflexivity.
Defined.

Lemma PrintType_PointerTo_witness :
  ∃ P, PointerTo cc65 (λ _, 0x5A5A) int10 = Ok P
       ∧ PrintType ILP32 cc65 no_store P
         = (λ s, s +:+ "*") <$> PrintType ILP32 cc65 no_store int10.
Proof.
  apply (PrintType_PointerTo ILP32 cc65 no_store (λ _, 0x5A5A)
           (CArray (T_ARRAY cc65) 10 (CBase (T_INT cc65))) cc65_ok cc65_layout).
  reflexivity.
Defined.

Lemma PrintRawType_dump_witness :
  (∃ s, PrintRawType cc65 int10 = Ok s
     ∧ String.length s = 36%nat
     ∧ String.get 35 s = Some (Ascii.ascii_of_nat 10)
     ∧ String.get 5 s = Some "8"%char
     ∧ String.get 6 s = Some "0"%char
     ∧ String.get 7 s = Some "0"%char
     ∧ String.get 8 s = Some "A"%char
     ∧ String.get 9 s = Some " "%char) ∧
  PrintRawType cc65 [T_INT cc65] = Err OutOfBounds.
Proof.
  destruct (PrintRawType_dump cc65 int10) as [Hdump _].
  destruct (PrintRawType_dump cc65 [T_INT cc65]) as [_ Hopen].
  split.
  - destruct (Hdump 7%nat eq_refl) as (s & Hs & Hlen & Hnl & Hch).
    exists s. split; [exact Hs|]. split; [exact Hlen|]. split; [exact Hnl|].
    apply (Hch 1%nat 0x800A); [lia | reflexivity | unfold TYPE_BITS; lia].
  - apply Hopen. apply (bool_decide_unpack _). vm_compute. exact I.
Defined.

Lemma array_operations_reject_witness :
  GetElementCount ILP32 cc65 ptr_to_void = Err CheckFailed ∧
  GetElementType cc65 ptr_to_void = Err CheckFailed ∧
  ArrayToPtr cc65 (λ _, 0x5A5A) ptr_to_void = Err CheckFailed.
Proof.
  apply (array_operations_reject ILP32 cc65 (λ _, 0x5A5A)
           (CPtr (T_PTR cc65) (CBase (T_VOID cc65))) cc65_ok cc65_layout);
    [reflexivity | discriminate].
Defined.
